(** * The IPPcode24 parser ([parse.py]): a shallow embedding and its properties

    The embedding follows [parse.py] function by function and keeps its names.

    - A Python [str] is modelled by [string]; a character is a code point
      below 256 (an [ascii], read as Latin-1), so the non-ASCII letter "é"
      is the one character ["233"%char].  The classes [\s], [\d] and [\w] and
      [str.lower] are Python's Unicode ones restricted to these code points.
    - [sys.exit] is modelled by the [Err] case of [result]; the constructor
      records which exit site of the source was taken.
    - [re.match] is modelled by a derivative matcher over a small syntax of
      regular expressions; each pattern of the source is transcribed
      literally into that syntax. *)

From Stdlib Require Import Bool Arith List Ascii String Lia.
Import ListNotations.
Open Scope string_scope.

(** ** Failures *)

(** One constructor per exit site of the source.  [MissingHeader] is
    [sys.exit(21)] (both sites of [main]); the others are [sys.exit(23)]:
    [MissingInstruction] (parse_instruction, empty word list),
    [UnknownOpcode], [ArityMismatch], [InvalidOperandSyntax] (both sites of
    determine_operand_type_and_value) and [OperandTypeMismatch].
    [PyIndexError] is the uncaught exception of [operands_expected[i]]. *)
Inductive error : Type :=
| MissingHeader
| MissingInstruction
| UnknownOpcode
| ArityMismatch
| InvalidOperandSyntax
| OperandTypeMismatch
| PyIndexError.

Definition exit_code (e : error) : nat :=
  match e with
  | MissingHeader => 21
  | PyIndexError => 1
  | _ => 23
  end.

Inductive result (A : Type) : Type :=
| Ok (a : A)
| Err (e : error).

Arguments Ok {A} a.
Arguments Err {A} e.

Definition bind {A B : Type} (m : result A) (k : A -> result B) : result B :=
  match m with
  | Ok a => k a
  | Err e => Err e
  end.

Notation "x <- m ;; k" := (bind m (fun x => k))
  (at level 61, m at next level, right associativity).

(** ** Characters *)

Definition code (c : ascii) : nat := nat_of_ascii c.

Definition between (lo hi : nat) (c : ascii) : bool :=
  Nat.leb lo (code c) && Nat.leb (code c) hi.

(** [str.isspace] on one character, which is also [\s]: TAB..CR, FS..US,
    space, NEL and NBSP. *)
Definition isspace (c : ascii) : bool :=
  between 9 13 c || between 28 32 c || Nat.eqb (code c) 133 || Nat.eqb (code c) 160.

(** [\d]: the decimal digits; below 256 these are "0".."9". *)
Definition isdecimal (c : ascii) : bool := between 48 57 c.

Definition is_ascii_letter (c : ascii) : bool :=
  between 65 90 c || between 97 122 c.

(** [str.isalnum] on one character: letters, decimal digits, and the
    characters with a digit or numeric value (superscripts, fractions). *)
Definition isalnum (c : ascii) : bool :=
  isdecimal c || is_ascii_letter c
  || Nat.eqb (code c) 170 || between 178 179 c || Nat.eqb (code c) 181
  || between 185 186 c || between 188 190 c
  || between 192 214 c || between 216 246 c || between 248 255 c.

(** [\w]: alphanumeric or underscore. *)
Definition isword (c : ascii) : bool := isalnum c || Ascii.eqb c "_".

(** [str.lower] on one character: A-Z and the Latin-1 capitals. *)
Definition lower_char (c : ascii) : ascii :=
  if between 65 90 c || between 192 214 c || between 216 222 c
  then ascii_of_nat (code c + 32) else c.

(** [str.upper] on one character.  The source calls it on keys of
    [instructions] only; the three characters whose upper-case form is not a
    single code point below 256 (181, 223, 255) are left as they are. *)
Definition upper_char (c : ascii) : ascii :=
  if between 97 122 c || between 224 246 c || between 248 254 c
  then ascii_of_nat (code c - 32) else c.

(** ** Strings *)

Definition is_empty (s : string) : bool :=
  match s with
  | EmptyString => true
  | String _ _ => false
  end.

Fixpoint str_all (p : ascii -> bool) (s : string) : bool :=
  match s with
  | EmptyString => true
  | String c s' => p c && str_all p s'
  end.

Fixpoint count_char (a : ascii) (s : string) : nat :=
  match s with
  | EmptyString => 0
  | String c s' => (if Ascii.eqb c a then 1 else 0) + count_char a s'
  end.

(** [a in s] for a one-character [a]. *)
Fixpoint contains (a : ascii) (s : string) : bool :=
  match s with
  | EmptyString => false
  | String c s' => Ascii.eqb c a || contains a s'
  end.

Definition startswith (a : ascii) (s : string) : bool :=
  match s with
  | EmptyString => false
  | String c _ => Ascii.eqb c a
  end.

Definition cons_head (c : ascii) (l : list string) : list string :=
  match l with
  | [] => [String c ""]
  | h :: t => String c h :: t
  end.

(** [s.split(sep)] for a one-character separator. *)
Fixpoint split (sep : ascii) (s : string) : list string :=
  match s with
  | EmptyString => [""]
  | String c s' =>
      if Ascii.eqb c sep then "" :: split sep s' else cons_head c (split sep s')
  end.

(** [s.split(sep, 1)]: at most one split, at the first separator. *)
Fixpoint split1 (sep : ascii) (s : string) : list string :=
  match s with
  | EmptyString => [""]
  | String c s' =>
      if Ascii.eqb c sep then [""; s'] else cons_head c (split1 sep s')
  end.

Fixpoint lstrip (s : string) : string :=
  match s with
  | EmptyString => ""
  | String c s' => if isspace c then lstrip s' else s
  end.

Fixpoint rstrip (s : string) : string :=
  match s with
  | EmptyString => ""
  | String c s' =>
      let r := rstrip s' in
      if is_empty r && isspace c then "" else String c r
  end.

(** [s.strip()] *)
Definition strip (s : string) : string := rstrip (lstrip s).

Fixpoint lower (s : string) : string :=
  match s with
  | EmptyString => ""
  | String c s' => String (lower_char c) (lower s')
  end.

Fixpoint upper (s : string) : string :=
  match s with
  | EmptyString => ""
  | String c s' => String (upper_char c) (upper s')
  end.

(** The leading run of non-whitespace characters, and what follows it. *)
Fixpoint span_word (s : string) : string * string :=
  match s with
  | EmptyString => ("", "")
  | String c s' =>
      if isspace c then ("", s)
      else let (w, r) := span_word s' in (String c w, r)
  end.

(** [s.split(maxsplit=1)]: leading whitespace is skipped; the first word is
    cut at the first whitespace; the rest, with its leading whitespace
    skipped, is kept whole unless it is empty. *)
Definition split_ws_max1 (s : string) : list string :=
  let s1 := lstrip s in
  if is_empty s1 then []
  else
    let (w, r) := span_word s1 in
    let r' := lstrip r in
    if is_empty r' then [w] else [w; r'].

(** [re.split(r'\s+', s)]: [s] is cut at every maximal run of whitespace;
    [in_sep] tells that the previous character belonged to such a run. *)
Fixpoint re_split_ws_from (in_sep : bool) (s : string) : list string :=
  match s with
  | EmptyString => [""]
  | String c s' =>
      if isspace c then
        if in_sep then re_split_ws_from true s'
        else "" :: re_split_ws_from true s'
      else cons_head c (re_split_ws_from false s')
  end.

Definition re_split_ws (s : string) : list string := re_split_ws_from false s.

(** ** Regular expressions *)

(** An item of a bracketed class, or a class escape. *)
Inductive citem : Type :=
| One (c : ascii)
| Range (lo hi : ascii)
| ClsD
| ClsW
| ClsS.

Definition item_has (i : citem) (c : ascii) : bool :=
  match i with
  | One a => Ascii.eqb c a
  | Range lo hi => between (code lo) (code hi) c
  | ClsD => isdecimal c
  | ClsW => isword c
  | ClsS => isspace c
  end.

Definition set_has (items : list citem) (c : ascii) : bool :=
  existsb (fun i => item_has i c) items.

Inductive regex : Type :=
| Fail
| Eps
| Lit (a : ascii)
| LitI (a : ascii)
| In_ (items : list citem)
| NotIn (items : list citem)
| Seq (r1 r2 : regex)
| Alt (r1 r2 : regex)
| Star (r : regex).

(** [LitI] is a literal under [re.IGNORECASE].  [Plus] is [r+], [Opt] is
    [r?], [Str w] is the literal text [w]. *)
Definition Plus (r : regex) : regex := Seq r (Star r).
Definition Opt (r : regex) : regex := Alt r Eps.

Fixpoint Str (w : string) : regex :=
  match w with
  | EmptyString => Eps
  | String c w' => Seq (Lit c) (Str w')
  end.

(** The pattern as compiled with [re.IGNORECASE]: literals compare by
    lower-case form. *)
Fixpoint ignorecase (r : regex) : regex :=
  match r with
  | Lit a => LitI a
  | Seq r1 r2 => Seq (ignorecase r1) (ignorecase r2)
  | Alt r1 r2 => Alt (ignorecase r1) (ignorecase r2)
  | Star r1 => Star (ignorecase r1)
  | _ => r
  end.

Fixpoint nullable (r : regex) : bool :=
  match r with
  | Fail => false
  | Eps => true
  | Lit _ | LitI _ | In_ _ | NotIn _ => false
  | Seq r1 r2 => nullable r1 && nullable r2
  | Alt r1 r2 => nullable r1 || nullable r2
  | Star _ => true
  end.

Definition of_bool (b : bool) : regex := if b then Eps else Fail.

Fixpoint deriv (c : ascii) (r : regex) : regex :=
  match r with
  | Fail | Eps => Fail
  | Lit a => of_bool (Ascii.eqb c a)
  | LitI a => of_bool (Ascii.eqb (lower_char c) (lower_char a))
  | In_ items => of_bool (set_has items c)
  | NotIn items => of_bool (negb (set_has items c))
  | Seq r1 r2 =>
      if nullable r1 then Alt (Seq (deriv c r1) r2) (deriv c r2)
      else Seq (deriv c r1) r2
  | Alt r1 r2 => Alt (deriv c r1) (deriv c r2)
  | Star r1 => Seq (deriv c r1) (Star r1)
  end.

(** The whole of [s] is matched by [r]. *)
Fixpoint fullmatch (r : regex) (s : string) : bool :=
  match s with
  | EmptyString => nullable r
  | String c s' => fullmatch (deriv c r) s'
  end.

Definition newline : ascii := "010"%char.

(** [re.match("^" body "$", s)] as a truth value.  Without [re.MULTILINE],
    [$] holds at the end of [s] and just before a line feed that ends [s]. *)
Definition re_match (body : regex) (s : string) : bool :=
  fullmatch (Seq body (Opt (Lit newline))) s.

(** ** The program *)

(** [x in l] for a list of strings. *)
Definition mem (x : string) (l : list string) : bool :=
  existsb (String.eqb x) l.

(** The dictionary [instructions], in source order. *)
Definition instructions : list (string * list string) :=
  [ ("move", ["v"; "s"]);
    ("createframe", []);
    ("pushframe", []);
    ("popframe", []);
    ("defvar", ["v"]);
    ("call", ["l"]);
    ("return", []);
    ("pushs", ["s"]);
    ("pops", ["v"]);
    ("add", ["v"; "s"; "s"]);
    ("sub", ["v"; "s"; "s"]);
    ("mul", ["v"; "s"; "s"]);
    ("idiv", ["v"; "s"; "s"]);
    ("lt", ["v"; "s"; "s"]);
    ("gt", ["v"; "s"; "s"]);
    ("eq", ["v"; "s"; "s"]);
    ("and", ["v"; "s"; "s"]);
    ("or", ["v"; "s"; "s"]);
    ("not", ["v"; "s"]);
    ("int2char", ["v"; "s"]);
    ("stri2int", ["v"; "s"; "s"]);
    ("read", ["v"; "t"]);
    ("write", ["s"]);
    ("concat", ["v"; "s"; "s"]);
    ("strlen", ["v"; "s"]);
    ("getchar", ["v"; "s"; "s"]);
    ("setchar", ["v"; "s"; "s"]);
    ("type", ["v"; "s"]);
    ("label", ["l"]);
    ("jump", ["l"]);
    ("jumpifeq", ["l"; "s"; "s"]);
    ("jumpifneq", ["l"; "s"; "s"]);
    ("exit", ["s"]);
    ("dprint", ["s"]);
    ("break", []) ].

(** [instructions[name]], [None] when [name not in instructions]. *)
Fixpoint lookup (name : string) (d : list (string * list string))
  : option (list string) :=
  match d with
  | [] => None
  | (k, v) :: d' => if String.eqb name k then Some v else lookup name d'
  end.

Definition ws : regex := In_ [ClsS].
Definition digit : regex := In_ [ClsD].

(** [^\s*\.IPPcode24\s*$] with [re.IGNORECASE] *)
Definition header_re : regex :=
  ignorecase (Seq (Star ws) (Seq (Str ".IPPcode24") (Star ws))).

Definition is_header (line : string) : bool := re_match header_re line.

Definition symbols : list citem :=
  [One "-"; One "$"; One "&"; One "%"; One "*"; One "!"; One "?"].

(** [^[a-zA-Z_\-$&%*!?][\w\-$&%*!?]*$] *)
Definition name_first : list citem :=
  Range "a" "z" :: Range "A" "Z" :: One "_" :: symbols.
Definition name_rest : list citem := ClsW :: symbols.
Definition name_re : regex := Seq (In_ name_first) (Star (In_ name_rest)).

(** [^(int|bool|string|nil)$] *)
Definition type_re : regex :=
  Alt (Str "int") (Alt (Str "bool") (Alt (Str "string") (Str "nil"))).

Definition is_type (type_ : string) : bool := re_match type_re type_.

Definition is_label (label : string) : bool := re_match name_re label.

Definition is_var (var : string) : bool :=
  if negb (contains "@" var) then false
  else
    match split1 "@" var with
    | [frame; name] =>
        if negb (mem frame ["GF"; "TF"; "LF"]) then false
        else re_match name_re name
    | _ => false (* not reached: [var] contains an "@" *)
    end.

(** [^-?\d+$], [^-?0x[0-9a-fA-F]+$], [^-?0o[0-7]+$], [^\+?\d+$] *)
Definition int_dec_re : regex := Seq (Opt (Lit "-")) (Plus digit).
Definition int_hex_re : regex :=
  Seq (Opt (Lit "-"))
      (Seq (Str "0x") (Plus (In_ [Range "0" "9"; Range "a" "f"; Range "A" "F"]))).
Definition int_oct_re : regex :=
  Seq (Opt (Lit "-")) (Seq (Str "0o") (Plus (In_ [Range "0" "7"]))).
Definition int_plus_re : regex := Seq (Opt (Lit "+")) (Plus digit).

(** [^([^\\\s]|(\\[0-9]{3}))*$] *)
Definition digit09 : regex := In_ [Range "0" "9"].
Definition string_re : regex :=
  Star (Alt (NotIn [One "\"; ClsS])
            (Seq (Lit "\") (Seq digit09 (Seq digit09 digit09)))).

Definition is_symb (symb : string) : bool :=
  if negb (contains "@" symb) then false
  else
    match split1 "@" symb with
    | [type_; value] =>
        if negb (is_type type_) then false
        else if String.eqb type_ "nil" then String.eqb value "nil"
        else if String.eqb type_ "int" then
          re_match int_dec_re value || re_match int_hex_re value
          || re_match int_oct_re value || re_match int_plus_re value
        else if String.eqb type_ "bool" then mem value ["true"; "false"]
        else if String.eqb type_ "string" then re_match string_re value
        else false
    | _ => false (* not reached: [symb] contains an "@" *)
    end.

Definition validate_operand_type (expected_type actual_type operand : string)
  : bool :=
  if String.eqb expected_type "v" && String.eqb actual_type "var" then true
  else if String.eqb expected_type "s"
          && mem actual_type ["var"; "int"; "bool"; "string"; "nil"] then true
  else if String.eqb expected_type "l" && String.eqb actual_type "label" then true
  else if String.eqb expected_type "t" && String.eqb actual_type "type" then true
  else false.

(** Returns the pair [(actual_type, actual_value)]. *)
Definition determine_operand_type_and_value (operand expected_type : string)
  : result (string * string) :=
  if String.eqb expected_type "l" then
    if is_label operand then Ok ("label", operand)
    else Err InvalidOperandSyntax
  else if is_type operand then Ok ("type", operand)
  else if is_var operand then Ok ("var", operand)
  else if is_symb operand then
    match split1 "@" operand with
    | [type_; value] => Ok (type_, value)
    | _ => Err InvalidOperandSyntax (* not reached: [is_symb] found an "@" *)
    end
  else Err InvalidOperandSyntax.

(** The sub-element [arg{i+1}] with its [type] attribute and its text. *)
Record arg_element : Type := {
  arg_index : nat;
  arg_type : string;
  arg_text : string
}.

(** The element [instruction]: [el_order] is the number whose decimal form
    is the attribute [order]. *)
Record instruction_element : Type := {
  el_order : nat;
  el_opcode : string;
  el_args : list arg_element
}.

(** One turn of the loop over [enumerate(operands)]. *)
Definition parse_operand (operands_expected : list string) (i : nat)
  (operand : string) : result arg_element :=
  match nth_error operands_expected i with
  | None => Err PyIndexError
  | Some expected_type =>
      tv <- determine_operand_type_and_value operand expected_type ;;
      let (actual_type, actual_value) := tv in
      if negb (validate_operand_type expected_type actual_type operand)
      then Err OperandTypeMismatch
      else Ok {| arg_index := i + 1;
                 arg_type := actual_type;
                 arg_text := actual_value |}
  end.

(** The loop over [enumerate(operands)], from index [i] on. *)
Fixpoint parse_operands (operands_expected : list string) (i : nat)
  (operands : list string) : result (list arg_element) :=
  match operands with
  | [] => Ok []
  | operand :: rest =>
      a <- parse_operand operands_expected i operand ;;
      l <- parse_operands operands_expected (S i) rest ;;
      Ok (a :: l)
  end.

Definition is_nil {A : Type} (l : list A) : bool :=
  match l with
  | [] => true
  | _ :: _ => false
  end.

Definition parse_instruction (instruction : string) (order : nat)
  : result instruction_element :=
  let words := split_ws_max1 instruction in
  if Nat.ltb (List.length words) 1 then Err MissingInstruction
  else
    let instruction_name := lower (nth 0 words "") in
    let operands_raw := if Nat.ltb 1 (List.length words) then tl words else [""] in
    match lookup instruction_name instructions with
    | None => Err UnknownOpcode
    | Some operands_expected =>
        let operands :=
          if negb (is_nil operands_raw)
          then re_split_ws (strip (nth 0 operands_raw ""))
          else [] in
        let operands :=
          if is_nil operands_raw || String.eqb (nth 0 operands_raw "") ""
          then [] else operands in
        if negb (Nat.eqb (List.length operands) (List.length operands_expected))
        then Err ArityMismatch
        else
          args <- parse_operands operands_expected 0 operands ;;
          Ok {| el_order := order;
                el_opcode := upper instruction_name;
                el_args := args |}
    end.

(** The local variables of [main] that the loop updates. *)
Record main_state : Type := {
  header_found : bool;
  instructions_xml : list instruction_element;
  order : nat
}.

Definition main_init : main_state :=
  {| header_found := false; instructions_xml := []; order := 0 |}.

(** [line.split("#")[0]] *)
Definition before_hash (line : string) : string := nth 0 (split "#" line) "".

(** [header_found = True] *)
Definition found (st : main_state) : main_state :=
  {| header_found := true;
     instructions_xml := instructions_xml st;
     order := order st |}.

(** [order += 1] and [instructions_xml.append(x)] *)
Definition appended (st : main_state) (x : instruction_element) : main_state :=
  {| header_found := header_found st;
     instructions_xml := instructions_xml st ++ [x];
     order := order st + 1 |}.

(** The body of [for line in args.input]. *)
Definition main_step (st : main_state) (line : string) : result main_state :=
  let line := strip line in
  if startswith "#" line || is_empty line then Ok st
  else if negb (header_found st) then
    if is_header (strip (before_hash line)) then Ok (found st)
    else Err MissingHeader
  else
    let line := strip (before_hash line) in
    if negb (is_empty line) then
      instruction_xml <- parse_instruction line (order st + 1) ;;
      Ok (appended st instruction_xml)
    else Ok st.

Fixpoint main_loop (st : main_state) (lines : list string) : result main_state :=
  match lines with
  | [] => Ok st
  | line :: rest => st' <- main_step st line ;; main_loop st' rest
  end.

(** [main] on the lines that [args.input] yields; the result is the list
    handed to [generate_xml_output]. *)
Definition main (lines : list string) : result (list instruction_element) :=
  st <- main_loop main_init lines ;;
  if negb (header_found st) then Err MissingHeader
  else Ok (instructions_xml st).

(** ** Notions the properties are stated with *)

(** The language of a regular expression. *)
Inductive star (L : string -> Prop) : string -> Prop :=
| star_nil : star L ""
| star_app (s1 s2 : string) : L s1 -> star L s2 -> star L (s1 ++ s2).

Fixpoint lang (r : regex) (s : string) : Prop :=
  match r with
  | Fail => False
  | Eps => s = ""
  | Lit a => s = String a ""
  | LitI a => exists c, s = String c "" /\ lower_char c = lower_char a
  | In_ items => exists c, s = String c "" /\ set_has items c = true
  | NotIn items => exists c, s = String c "" /\ set_has items c = false
  | Seq r1 r2 => exists s1 s2, s = s1 ++ s2 /\ lang r1 s1 /\ lang r2 s2
  | Alt r1 r2 => lang r1 s \/ lang r2 s
  | Star r1 => star (lang r1) s
  end.

(** No word of [r] contains the character [a]. *)
Fixpoint avoids (a : ascii) (r : regex) : bool :=
  match r with
  | Fail | Eps => true
  | Lit b => negb (Ascii.eqb a b)
  | LitI b => negb (Ascii.eqb (lower_char a) (lower_char b))
  | In_ items => negb (set_has items a)
  | NotIn items => set_has items a
  | Seq r1 r2 | Alt r1 r2 => avoids a r1 && avoids a r2
  | Star r1 => avoids a r1
  end.

(** The maximal runs of non-whitespace characters of [s], in order: the
    tokens of a line ([s.split()]). *)
Fixpoint tokens (s : string) : list string :=
  match s with
  | EmptyString => []
  | String c s' =>
      if isspace c then tokens s'
      else
        match s' with
        | EmptyString => [String c ""]
        | String d _ =>
            if isspace d then String c "" :: tokens s'
            else cons_head c (tokens s')
        end
  end.

(** A line after comment-stripping and trimming. *)
Definition content (line : string) : string := strip (before_hash line).

(** Blank or comment-only. *)
Definition blank (line : string) : bool := is_empty (content line).

(** The content of the first line that is not blank or comment-only. *)
Fixpoint first_content (lines : list string) : option string :=
  match lines with
  | [] => None
  | l :: rest => if blank l then first_content rest else Some (content l)
  end.

(** The lines after the first line that is not blank or comment-only. *)
Fixpoint body_lines (lines : list string) : list string :=
  match lines with
  | [] => []
  | l :: rest => if blank l then body_lines rest else rest
  end.

Definition has_content (line : string) : bool := negb (blank line).

(** The body lines that are not empty after comment-stripping and trimming. *)
Definition instruction_lines (lines : list string) : list string :=
  filter has_content (body_lines lines).

(** The first line with content is the header. *)
Definition header_accepted (lines : list string) : bool :=
  match first_content lines with
  | Some c => is_header c
  | None => false
  end.

(** The header, and nothing but blank or comment-only lines around it. *)
Definition header_only (lines : list string) : bool :=
  header_accepted lines && forallb blank (body_lines lines).

(** The characters "-", "$", "&", "%", "*", "!", "?". *)
Definition is_symbol_char (c : ascii) : bool :=
  existsb (Ascii.eqb c) ["-"; "$"; "&"; "%"; "*"; "!"; "?"]%char.

Definition is_ascii_digit (c : ascii) : bool := between 48 57 c.

Definition is_hex_digit (c : ascii) : bool :=
  is_ascii_digit c || between 97 102 c || between 65 70 c.

Definition is_octal_digit (c : ascii) : bool := between 48 55 c.

Definition name_start (c : ascii) : bool :=
  is_ascii_letter c || Ascii.eqb c "_" || is_symbol_char c.

(** What the source's second class admits: any word character. *)
Definition name_char (c : ascii) : bool := isword c || is_symbol_char c.

(** ASCII alphanumerics, underscore and the symbol characters only. *)
Definition ascii_name_char (c : ascii) : bool :=
  is_ascii_letter c || is_ascii_digit c || Ascii.eqb c "_" || is_symbol_char c.

(** One or more characters, all of the class [p]. *)
Definition digits (p : ascii -> bool) (s : string) : Prop :=
  s <> "" /\ str_all p s = true.

(** [s] is [body], or [body] after the sign. *)
Definition signed (sign : string) (body s : string) : Prop :=
  s = body \/ s = sign ++ body.

(** The four integer forms of the source: the base prefixes in lower case. *)
Definition int_form (w : string) : Prop :=
  (exists ds, signed "-" ds w /\ digits isdecimal ds)
  \/ (exists ds, signed "-" ("0x" ++ ds) w /\ digits is_hex_digit ds)
  \/ (exists ds, signed "-" ("0o" ++ ds) w /\ digits is_octal_digit ds)
  \/ (exists ds, signed "+" ds w /\ digits isdecimal ds).

(** [s] is [w], or [w] and one final line feed. *)
Definition upto_newline (w s : string) : Prop :=
  s = w \/ s = w ++ String newline "".

(** A variable name. *)
Definition var_name (name : string) : Prop :=
  exists c rest,
    name = String c rest /\ name_start c = true /\ str_all name_char rest = true.

(** A string literal read from the left: a backslash starts an escape of
    exactly three digits "0".."9"; any other character is no whitespace. *)
Fixpoint escaped (s : string) : bool :=
  match s with
  | EmptyString => true
  | String c s' =>
      if Ascii.eqb c "\" then
        match s' with
        | String d1 (String d2 (String d3 s'')) =>
            is_ascii_digit d1 && is_ascii_digit d2 && is_ascii_digit d3
            && escaped s''
        | _ => false
        end
      else negb (isspace c) && escaped s'
  end.

(** The values [is_symb] accepts under each type keyword. *)
Definition symb_value (type_ value : string) : Prop :=
  (type_ = "nil" /\ value = "nil")
  \/ (type_ = "int" /\ exists w, upto_newline w value /\ int_form w)
  \/ (type_ = "bool" /\ (value = "true" \/ value = "false"))
  \/ (type_ = "string" /\ exists w, upto_newline w value /\ escaped w = true).

(** Instruction lines parsed one after the other and numbered from [o] on;
    the first failure is the result. *)
Fixpoint parse_lines (o : nat) (ls : list string)
  : result (list instruction_element) :=
  match ls with
  | [] => Ok []
  | l :: rest =>
      x <- parse_instruction l o ;;
      xs <- parse_lines (S o) rest ;;
      Ok (x :: xs)
  end.

(** The contents of the lines that have one. *)
Definition contents (lines : list string) : list string :=
  map content (filter has_content lines).

(** What an operand slot of category [e] admits. *)
Definition slot_admits (e t : string) : Prop :=
  (e = "v" /\ is_var t = true)
  \/ (e = "s" /\ (is_var t = true \/ is_symb t = true))
  \/ (e = "l" /\ is_label t = true)
  \/ (e = "t" /\ is_type t = true).

(** The argument element an accepted operand [t] gives in a slot [e]. *)
Definition arg_of_slot (e t : string) (a : arg_element) : Prop :=
  (e = "v" /\ arg_type a = "var" /\ arg_text a = t)
  \/ (e = "l" /\ arg_type a = "label" /\ arg_text a = t)
  \/ (e = "t" /\ arg_type a = "type" /\ arg_text a = t)
  \/ (e = "s" /\ arg_type a = "var" /\ arg_text a = t /\ is_var t = true)
  \/ (e = "s" /\ In (arg_type a) ["int"; "bool"; "string"; "nil"]
      /\ t = arg_type a ++ "@" ++ arg_text a).

(** An instruction element as the parser builds them: the opcode is a key
    of [instructions] in upper case, and the arguments are numbered from 1
    and are as many as the signature has categories (at most three). *)
Definition well_formed (x : instruction_element) : Prop :=
  exists name operands_expected,
    lookup name instructions = Some operands_expected
    /\ el_opcode x = upper name
    /\ map arg_index (el_args x) = seq 1 (List.length operands_expected)
    /\ List.length operands_expected <= 3
    /\ Forall (fun a => In (arg_type a)
                           ["var"; "int"; "bool"; "string"; "nil"; "label"; "type"])
              (el_args x).

Definition nonspace (c : ascii) : bool := negb (isspace c).

(** The argument element [a] is what the token [snd et] gives in a slot of
    category [fst et]. *)
Definition arg_matches (et : string * string) (a : arg_element) : Prop :=
  slot_admits (fst et) (snd et) /\ arg_of_slot (fst et) (snd et) a.

(** * Properties *)

(** ** Strings *)

Lemma append_empty_r (s : string) : s ++ "" = s.
Proof. induction s as [|c s IH]; simpl; [reflexivity | now rewrite IH]. Qed.

Lemma append_assoc (s1 s2 s3 : string) : (s1 ++ s2) ++ s3 = s1 ++ (s2 ++ s3).
Proof. induction s1 as [|c s1 IH]; simpl; [reflexivity | now rewrite IH]. Qed.

Lemma append_eq_empty (s1 s2 : string) : s1 ++ s2 = "" -> s1 = "" /\ s2 = "".
Proof. destruct s1; simpl; [auto | discriminate]. Qed.

Lemma is_empty_true (s : string) : is_empty s = true <-> s = "".
Proof. destruct s; simpl; split; congruence. Qed.

Lemma str_all_ext (p q : ascii -> bool) (s : string) :
  (forall c, p c = q c) -> str_all p s = str_all q s.
Proof. intros E. induction s as [|c s IH]; simpl; [reflexivity | now rewrite E, IH]. Qed.

(** ** The matcher decides the language *)

Lemma nullable_lang (r : regex) : nullable r = true <-> lang r "".
Proof.
  induction r as [ | | a | a | items | items | r1 IH1 r2 IH2 | r1 IH1 r2 IH2 | r IH];
    simpl.
  - split; [discriminate | tauto].
  - split; auto.
  - split; discriminate.
  - split; [discriminate | intros (c & E & _); discriminate].
  - split; [discriminate | intros (c & E & _); discriminate].
  - split; [discriminate | intros (c & E & _); discriminate].
  - rewrite andb_true_iff, IH1, IH2. split.
    + intros [H1 H2]. now exists "", "".
    + intros (s1 & s2 & E & H1 & H2). symmetry in E.
      apply append_eq_empty in E as [-> ->]. auto.
  - now rewrite orb_true_iff, IH1, IH2.
  - split; [intros _; constructor | reflexivity].
Qed.

Lemma lang_of_bool (b : bool) (s : string) : lang (of_bool b) s <-> b = true /\ s = "".
Proof. destruct b; simpl; intuition congruence. Qed.

Lemma star_cons (L : string -> Prop) (c : ascii) (s : string) :
  star L (String c s) ->
  exists s1 s2, s = s1 ++ s2 /\ L (String c s1) /\ star L s2.
Proof.
  intros H. remember (String c s) as x eqn:E. revert c s E.
  induction H as [|t1 t2 H1 H2 IH]; intros c s E; [discriminate|].
  destruct t1 as [|d t1]; simpl in E.
  - now apply IH.
  - injection E as -> <-. now exists t1, t2.
Qed.

Lemma deriv_lang (r : regex) :
  forall c s, lang (deriv c r) s <-> lang r (String c s).
Proof.
  induction r as [ | | a | a | items | items | r1 IH1 r2 IH2 | r1 IH1 r2 IH2 | r IH];
    intros c s; simpl.
  - tauto.
  - split; [tauto | discriminate].
  - rewrite lang_of_bool, Ascii.eqb_eq. split.
    + now intros [-> ->].
    + intros E. now injection E as -> ->.
  - rewrite lang_of_bool, Ascii.eqb_eq. split.
    + intros [E ->]. now exists c.
    + intros (d & E & H). now injection E as -> ->.
  - rewrite lang_of_bool. split.
    + intros [E ->]. now exists c.
    + intros (d & E & H). now injection E as -> ->.
  - rewrite lang_of_bool, negb_true_iff. split.
    + intros [E ->]. now exists c.
    + intros (d & E & H). now injection E as -> ->.
  - assert (step : (exists s1 s2, s = s1 ++ s2 /\ lang (deriv c r1) s1 /\ lang r2 s2)
                   \/ (lang r1 "" /\ lang r2 (String c s))
                   <-> exists s1 s2, String c s = s1 ++ s2 /\ lang r1 s1 /\ lang r2 s2).
    { split.
      - intros [(s1 & s2 & -> & H1 & H2) | [H1 H2]].
        + exists (String c s1), s2. now rewrite <- IH1.
        + now exists "", (String c s).
      - intros (s1 & s2 & E & H1 & H2). destruct s1 as [|d s1]; simpl in E.
        + right. now subst s2.
        + left. injection E as <- ->. exists s1, s2. now rewrite IH1. }
    rewrite <- step. destruct (nullable r1) eqn:N; simpl.
    + rewrite IH2. apply nullable_lang in N. tauto.
    + split; [tauto|]. intros [H | [H _]]; [exact H|].
      apply nullable_lang in H. congruence.
  - now rewrite IH1, IH2.
  - split.
    + intros (s1 & s2 & -> & H1 & H2). apply IH in H1.
      now apply (star_app (lang r) (String c s1) s2).
    + intros H. apply star_cons in H as (s1 & s2 & -> & H1 & H2).
      exists s1, s2. now rewrite IH.
Qed.

Lemma fullmatch_lang (s : string) :
  forall r, fullmatch r s = true <-> lang r s.
Proof.
  induction s as [|c s IH]; intros r; simpl.
  - apply nullable_lang.
  - now rewrite IH, deriv_lang.
Qed.

Lemma lang_Str (w s : string) : lang (Str w) s <-> s = w.
Proof.
  revert s. induction w as [|c w IH]; intros s; simpl; [tauto|]. split.
  - intros (s1 & s2 & -> & -> & H). apply IH in H. now subst.
  - intros ->. exists (String c ""), w. now rewrite IH.
Qed.

Lemma lang_Opt_Lit (a : ascii) (s : string) :
  lang (Opt (Lit a)) s <-> s = "" \/ s = String a "".
Proof. simpl. tauto. Qed.

Lemma lang_Star_In (items : list citem) (s : string) :
  lang (Star (In_ items)) s <-> str_all (set_has items) s = true.
Proof.
  simpl. split.
  - induction 1 as [|s1 s2 (c & -> & H1) _ IH]; simpl; [reflexivity|].
    now rewrite H1, IH.
  - induction s as [|c s IH]; simpl; [constructor|].
    rewrite andb_true_iff. intros [H1 H2].
    apply (star_app (lang (In_ items)) (String c "") s); [now exists c | auto].
Qed.

Lemma lang_Plus_In (items : list citem) (s : string) :
  lang (Plus (In_ items)) s <-> digits (set_has items) s.
Proof.
  unfold Plus, digits. split.
  - intros (s1 & s2 & -> & (c & -> & H1) & H2). apply lang_Star_In in H2.
    simpl. rewrite H1, H2. split; [discriminate | reflexivity].
  - intros [N H]. destruct s as [|c s]; [congruence|].
    simpl in H. apply andb_true_iff in H as [H1 H2].
    exists (String c ""), s. repeat split; [now exists c | now apply lang_Star_In].
Qed.

Lemma re_match_lang (r : regex) (s : string) :
  re_match r s = true <-> exists w, upto_newline w s /\ lang r w.
Proof.
  unfold re_match, upto_newline. rewrite fullmatch_lang. split.
  - intros (s1 & s2 & -> & H1 & H2). apply lang_Opt_Lit in H2.
    exists s1. split; [|exact H1].
    destruct H2 as [-> | ->]; [left; apply append_empty_r | right; reflexivity].
  - intros (w & [-> | ->] & H).
    + exists w, "". rewrite append_empty_r. simpl. auto.
    + exists w, (String newline ""). simpl. auto.
Qed.

Lemma contains_app (a : ascii) (s1 s2 : string) :
  contains a (s1 ++ s2) = contains a s1 || contains a s2.
Proof.
  induction s1 as [|c s1 IH]; simpl; [reflexivity|].
  now rewrite IH, orb_assoc.
Qed.

Lemma avoids_lang (a : ascii) (r : regex) :
  avoids a r = true -> forall s, lang r s -> contains a s = false.
Proof.
  induction r as [ | | b | b | items | items | r1 IH1 r2 IH2 | r1 IH1 r2 IH2 | r IH];
    simpl; intros A s H.
  - contradiction.
  - now subst.
  - subst s. simpl. apply negb_true_iff in A.
    now rewrite Ascii.eqb_sym, A.
  - destruct H as (c & -> & E). simpl. rewrite orb_false_r.
    apply negb_true_iff in A. apply Ascii.eqb_neq. intros ->.
    rewrite E, Ascii.eqb_refl in A. discriminate.
  - destruct H as (c & -> & E). simpl. rewrite orb_false_r.
    apply negb_true_iff in A. apply Ascii.eqb_neq. intros ->. congruence.
  - destruct H as (c & -> & E). simpl. rewrite orb_false_r.
    apply Ascii.eqb_neq. intros ->. congruence.
  - apply andb_true_iff in A as [A1 A2]. destruct H as (s1 & s2 & -> & H1 & H2).
    now rewrite contains_app, (IH1 A1 s1), (IH2 A2 s2).
  - apply andb_true_iff in A as [A1 A2]. destruct H as [H | H]; auto.
  - induction H as [|s1 s2 H1 _ IH2]; [reflexivity|].
    now rewrite contains_app, (IH A s1), IH2.
Qed.

Lemma re_match_avoids (a : ascii) (r : regex) (s : string) :
  avoids a r = true -> Ascii.eqb a newline = false ->
  re_match r s = true -> contains a s = false.
Proof.
  intros A N H. apply re_match_lang in H as (w & [-> | ->] & H).
  - now apply avoids_lang with r.
  - rewrite contains_app, (avoids_lang a r A w H). cbn [contains orb].
    now rewrite Ascii.eqb_sym, N.
Qed.

(** ** The classifiers *)

(** X1.  [is_type] accepts exactly the four keywords int, bool, string and
    nil, each also when followed by one final line feed. *)
Lemma is_type_spec (s : string) :
  is_type s = true <->
  exists w, upto_newline w s /\ In w ["int"; "bool"; "string"; "nil"].
Proof.
  unfold is_type. rewrite re_match_lang.
  split; intros (w & U & H); exists w; (split; [exact U|]);
    unfold type_re in *; cbn [lang In] in *; rewrite !lang_Str in *;
    intuition congruence.
Qed.

Lemma split1_app (a : ascii) (x y : string) :
  contains a x = false -> split1 a (x ++ String a y) = [x; y].
Proof.
  induction x as [|c x IH]; simpl.
  - now rewrite Ascii.eqb_refl.
  - intros H. apply orb_false_iff in H as [H1 H2]. now rewrite H1, IH.
Qed.

Lemma contains_split (a : ascii) (s : string) :
  contains a s = true ->
  exists x y, s = x ++ String a y /\ contains a x = false.
Proof.
  induction s as [|c s IH]; simpl; [discriminate|].
  destruct (Ascii.eqb c a) eqn:E; simpl.
  - intros _. apply Ascii.eqb_eq in E as ->. now exists "", s.
  - intros H. destruct (IH H) as (x & y & -> & Hx).
    exists (String c x), y. simpl. now rewrite E, Hx.
Qed.

Lemma count_char_app (a : ascii) (s1 s2 : string) :
  count_char a (s1 ++ s2) = count_char a s1 + count_char a s2.
Proof. induction s1 as [|c s1 IH]; simpl; [reflexivity | rewrite IH; lia]. Qed.

Lemma count_char_contains (a : ascii) (s : string) :
  contains a s = false <-> count_char a s = 0.
Proof.
  induction s as [|c s IH]; simpl; [tauto|].
  rewrite orb_false_iff, IH. destruct (Ascii.eqb c a); simpl.
  - split; [intros [H _] | intros H]; discriminate.
  - tauto.
Qed.

Lemma is_var_at (frame name : string) :
  contains "@" frame = false ->
  is_var (frame ++ String "@" name) =
  if negb (mem frame ["GF"; "TF"; "LF"]) then false else re_match name_re name.
Proof.
  intros H. unfold is_var.
  rewrite contains_app. cbn [contains]. rewrite Ascii.eqb_refl, orb_true_r.
  cbn [negb]. now rewrite split1_app.
Qed.

Lemma is_symb_at (type_ value : string) :
  contains "@" type_ = false ->
  is_symb (type_ ++ String "@" value) =
  if negb (is_type type_) then false
  else if String.eqb type_ "nil" then String.eqb value "nil"
  else if String.eqb type_ "int" then
    re_match int_dec_re value || re_match int_hex_re value
    || re_match int_oct_re value || re_match int_plus_re value
  else if String.eqb type_ "bool" then mem value ["true"; "false"]
  else if String.eqb type_ "string" then re_match string_re value
  else false.
Proof.
  intros H. unfold is_symb.
  rewrite contains_app. cbn [contains]. rewrite Ascii.eqb_refl, orb_true_r.
  cbn [negb]. now rewrite split1_app.
Qed.

Lemma mem_In (x : string) (l : list string) : mem x l = true <-> In x l.
Proof.
  unfold mem. rewrite existsb_exists. split.
  - intros (y & H & E). apply String.eqb_eq in E. now subst.
  - intros H. exists x. now rewrite String.eqb_refl.
Qed.

(** The type keywords contain no "@", with or without a final line feed. *)
Lemma is_type_no_at (s : string) : is_type s = true -> contains "@" s = false.
Proof.
  unfold is_type. apply re_match_avoids; reflexivity.
Qed.

(** A symbol is accepted under one of the four type keywords only. *)
Lemma is_symb_keyword (type_ value : string) :
  contains "@" type_ = false ->
  is_symb (type_ ++ String "@" value) = true ->
  In type_ ["int"; "bool"; "string"; "nil"].
Proof.
  intros H. rewrite (is_symb_at _ _ H).
  destruct (is_type type_); cbn [negb]; [|discriminate].
  destruct (String.eqb_spec type_ "nil") as [->|_]; [simpl; auto|].
  destruct (String.eqb_spec type_ "int") as [->|_]; [simpl; auto|].
  destruct (String.eqb_spec type_ "bool") as [->|_]; [simpl; auto|].
  destruct (String.eqb_spec type_ "string") as [->|_]; [simpl; auto|].
  discriminate.
Qed.

Lemma set_has_digit (c : ascii) : set_has [ClsD] c = isdecimal c.
Proof. unfold set_has. cbn [existsb item_has]. apply orb_false_r. Qed.

Lemma set_has_hex (c : ascii) :
  set_has [Range "0" "9"; Range "a" "f"; Range "A" "F"] c = is_hex_digit c.
Proof.
  unfold set_has, is_hex_digit, is_ascii_digit. cbn [existsb item_has].
  change (code "0") with 48. change (code "9") with 57.
  change (code "a") with 97. change (code "f") with 102.
  change (code "A") with 65. change (code "F") with 70.
  now rewrite orb_false_r, orb_assoc.
Qed.

Lemma set_has_octal (c : ascii) : set_has [Range "0" "7"] c = is_octal_digit c.
Proof. unfold set_has. cbn [existsb item_has]. apply orb_false_r. Qed.

Lemma digits_ext (p q : ascii -> bool) (s : string) :
  (forall c, p c = q c) -> digits p s <-> digits q s.
Proof. intros E. unfold digits. now rewrite (str_all_ext p q s E). Qed.

Lemma lang_signed (a : ascii) (r : regex) (w : string) :
  lang (Seq (Opt (Lit a)) r) w <->
  exists body, signed (String a "") body w /\ lang r body.
Proof.
  unfold signed. cbn [lang Opt]. split.
  - intros (s1 & s2 & -> & [-> | ->] & H); exists s2; auto.
  - intros (body & [-> | ->] & H).
    + exists "", body. auto.
    + exists (String a ""), body. auto.
Qed.

Lemma lang_prefixed (p : string) (r : regex) (w : string) :
  lang (Seq (Str p) r) w <-> exists ds, w = p ++ ds /\ lang r ds.
Proof.
  cbn [lang]. split.
  - intros (s1 & s2 & -> & H1 & H2). apply lang_Str in H1 as ->. now exists s2.
  - intros (ds & -> & H). exists p, ds. now rewrite lang_Str.
Qed.

Lemma int_res_lang (w : string) :
  lang int_dec_re w \/ lang int_hex_re w \/ lang int_oct_re w
  \/ lang int_plus_re w <-> int_form w.
Proof.
  unfold int_form, int_dec_re, int_hex_re, int_oct_re, int_plus_re, digit.
  rewrite !lang_signed.
  assert (D : forall s, lang (Plus (In_ [ClsD])) s <-> digits isdecimal s).
  { intros s. rewrite lang_Plus_In. apply digits_ext, set_has_digit. }
  assert (X : forall s,
             lang (Seq (Str "0x")
                       (Plus (In_ [Range "0" "9"; Range "a" "f"; Range "A" "F"]))) s
             <-> exists ds, s = "0x" ++ ds /\ digits is_hex_digit ds).
  { intros s. rewrite lang_prefixed. split; intros (ds & E & H); exists ds;
      (split; [exact E|]); rewrite lang_Plus_In in *;
      eapply digits_ext; try exact H; intros c;
      [symmetry|]; apply set_has_hex. }
  assert (O : forall s,
             lang (Seq (Str "0o") (Plus (In_ [Range "0" "7"]))) s
             <-> exists ds, s = "0o" ++ ds /\ digits is_octal_digit ds).
  { intros s. rewrite lang_prefixed. split; intros (ds & E & H); exists ds;
      (split; [exact E|]); rewrite lang_Plus_In in *;
      eapply digits_ext; try exact H; intros c;
      [symmetry|]; apply set_has_octal. }
  split.
  - intros [(b & S & H) | [(b & S & H) | [(b & S & H) | (b & S & H)]]].
    + left. exists b. now rewrite <- D.
    + right; left. apply X in H as (ds & -> & H). now exists ds.
    + right; right; left. apply O in H as (ds & -> & H). now exists ds.
    + right; right; right. exists b. now rewrite <- D.
  - intros [(ds & S & H) | [(ds & S & H) | [(ds & S & H) | (ds & S & H)]]].
    + left. exists ds. now rewrite D.
    + right; left. exists ("0x" ++ ds). split; [exact S|]. apply X. now exists ds.
    + right; right; left. exists ("0o" ++ ds). split; [exact S|]. apply O.
      now exists ds.
    + right; right; right. exists ds. now rewrite D.
Qed.

(** C1, as amended.  A token [int@V] is accepted by [is_symb] exactly when
    [V], or [V] without one final line feed, has one of the four forms:
    optional "-" then decimal digits; optional "-", the lower-case prefix
    "0x", then hexadecimal digits; optional "-", the lower-case prefix "0o",
    then octal digits; optional "+" then decimal digits. *)
Theorem is_symb_int_forms (V : string) :
  is_symb ("int@" ++ V) = true <-> exists w, upto_newline w V /\ int_form w.
Proof.
  change ("int@" ++ V) with ("int" ++ String "@" V).
  rewrite is_symb_at by reflexivity.
  change (is_type "int") with true. cbn [negb String.eqb Ascii.eqb Bool.eqb].
  rewrite !orb_true_iff, !re_match_lang. split.
  - intros H.
    assert (exists w, upto_newline w V
                      /\ (lang int_dec_re w \/ lang int_hex_re w
                          \/ lang int_oct_re w \/ lang int_plus_re w))
      as (w & U & L).
    { destruct H as [[[(w & U & L) | (w & U & L)] | (w & U & L)] | (w & U & L)];
        exists w; tauto. }
    exists w. now rewrite <- int_res_lang.
  - intros (w & U & F). apply int_res_lang in F.
    destruct F as [L | [L | [L | L]]].
    + left; left; left. now exists w.
    + left; left; right. now exists w.
    + left; right. now exists w.
    + right. now exists w.
Qed.

(** C1, as stated, fails: the upper-case base prefixes are rejected. *)
Lemma is_symb_upper_prefix_rejected :
  is_symb "int@-0X1A" = false /\ is_symb "int@-0O17" = false.
Proof. split; reflexivity. Qed.

Lemma is_symb_contains (t : string) : is_symb t = true -> contains "@" t = true.
Proof. unfold is_symb. now destruct (contains "@" t). Qed.

(** C2, as amended.  A token is split at its first "@" only.  With more
    than one "@" it is rejected under the types int, bool and nil, and
    accepted under the type string whenever the text after the first "@",
    which may contain further "@", is a string literal. *)
Theorem is_symb_many_ats (t : string) :
  2 <= count_char "@" t ->
  (is_symb t = true <->
   exists v, t = "string@" ++ v /\ re_match string_re v = true).
Proof.
  intros N. split.
  - intros H. destruct (contains_split "@" t (is_symb_contains t H))
      as (x & y & -> & Hx).
    assert (Hy : contains "@" y <> false).
    { rewrite count_char_contains. apply count_char_contains in Hx.
      rewrite count_char_app in N. cbn [count_char] in N.
      rewrite Ascii.eqb_refl in N. lia. }
    pose proof (is_symb_keyword x y Hx H) as K.
    rewrite (is_symb_at x y Hx) in H.
    destruct K as [<- | [<- | [<- | [<- | []]]]];
      change (is_type "int") with true in H;
      change (is_type "bool") with true in H;
      change (is_type "string") with true in H;
      change (is_type "nil") with true in H;
      cbn [negb String.eqb Ascii.eqb Bool.eqb andb] in H.
    + exfalso. apply Hy.
      repeat (apply orb_true_iff in H as [H | H]);
        revert H; apply re_match_avoids; reflexivity.
    + exfalso. apply Hy. apply mem_In in H as [<- | [<- | []]]; reflexivity.
    + now exists y.
    + exfalso. apply Hy. apply String.eqb_eq in H as ->. reflexivity.
  - intros (v & -> & H).
    change ("string@" ++ v) with ("string" ++ String "@" v).
    rewrite is_symb_at by reflexivity. exact H.
Qed.

Lemma is_symb_many_ats_witness :
  2 <= count_char "@" "string@a@b"
  /\ (is_symb "string@a@b" = true <->
      exists v, "string@a@b" = "string@" ++ v /\ re_match string_re v = true).
Proof.
  split; [vm_compute; lia | apply is_symb_many_ats; vm_compute; lia].
Defined.

(** C2, as stated, fails: a token with two "@" is accepted. *)
Lemma is_symb_two_ats_accepted :
  count_char "@" "string@a@b" = 2 /\ is_symb "string@a@b" = true.
Proof. split; reflexivity. Qed.

Lemma set_has_symbols (c : ascii) :
  existsb (fun i => item_has i c) symbols = is_symbol_char c.
Proof. reflexivity. Qed.

Lemma set_has_name_first (c : ascii) : set_has name_first c = name_start c.
Proof.
  unfold set_has, name_first, name_start, is_ascii_letter.
  cbn [existsb]. rewrite set_has_symbols. cbn [item_has].
  change (code "a") with 97. change (code "z") with 122.
  change (code "A") with 65. change (code "Z") with 90.
  destruct (between 97 122 c), (between 65 90 c); reflexivity.
Qed.

Lemma set_has_name_rest (c : ascii) : set_has name_rest c = name_char c.
Proof.
  unfold set_has, name_rest, name_char. cbn [existsb].
  now rewrite set_has_symbols.
Qed.

Lemma name_re_lang (w : string) : lang name_re w <-> var_name w.
Proof.
  unfold name_re, var_name. cbn [lang]. split.
  - intros (s1 & s2 & -> & (c & -> & H1) & H2).
    change (lang (Star (In_ name_rest)) s2) in H2. apply lang_Star_In in H2.
    exists c, s2. rewrite <- set_has_name_first, H1.
    rewrite <- (str_all_ext _ _ s2 set_has_name_rest). auto.
  - intros (c & rest & -> & H1 & H2).
    exists (String c ""), rest. repeat split.
    + exists c. now rewrite set_has_name_first.
    + change (lang (Star (In_ name_rest)) rest). apply lang_Star_In.
      now rewrite (str_all_ext _ _ rest set_has_name_rest).
Qed.

(** C9, as amended.  [is_var t] holds exactly when [t], or [t] without one
    final line feed, is [frame@name] with the frame one of GF, TF, LF and
    the name made of a first character that is an ASCII letter, an
    underscore or one of - $ & % * ! ?, and of further characters that are
    word characters ([\w]: alphanumerics, ASCII or not, and underscore) or
    one of these symbols. *)
Theorem is_var_spec (t : string) :
  is_var t = true <->
  exists frame name,
    In frame ["GF"; "TF"; "LF"] /\ var_name name
    /\ upto_newline (frame ++ "@" ++ name) t.
Proof.
  split.
  - intros H. assert (C : contains "@" t = true).
    { unfold is_var in H. now destruct (contains "@" t). }
    destruct (contains_split "@" t C) as (x & y & -> & Hx).
    rewrite (is_var_at x y Hx) in H.
    destruct (mem x ["GF"; "TF"; "LF"]) eqn:M; cbn [negb] in H; [|discriminate].
    apply mem_In in M. apply re_match_lang in H as (w & U & L).
    exists x, w. rewrite <- name_re_lang. repeat split; auto.
    destruct U as [-> | ->]; [left | right]; [reflexivity|].
    now rewrite append_assoc.
  - intros (frame & name & F & V & U).
    assert (Hf : contains "@" frame = false).
    { destruct F as [<- | [<- | [<- | []]]]; reflexivity. }
    assert (E : exists name', t = frame ++ String "@" name'
                              /\ upto_newline name name').
    { destruct U as [-> | ->].
      - exists name. split; [reflexivity | now left].
      - exists (name ++ String newline ""). split; [|now right].
        now rewrite append_assoc. }
    destruct E as (name' & -> & U').
    rewrite (is_var_at frame name' Hf).
    apply mem_In in F. rewrite F. cbn [negb].
    apply re_match_lang. exists name. now rewrite name_re_lang.
Qed.

(** C9, as stated, fails: a name with the non-ASCII letter "é" (code point
    233) is accepted. *)
Lemma is_var_non_ascii_letter :
  is_var ("GF@x" ++ String "233" "") = true
  /\ ascii_name_char "233" = false.
Proof. split; reflexivity. Qed.

(** ** The operand resolver *)

(** A token rebuilt from the kinds [type] and [var] is no operand. *)
Lemma determine_rebuilt (k t : string) :
  In k ["type"; "var"] ->
  determine_operand_type_and_value (k ++ "@" ++ t) "s" = Err InvalidOperandSyntax.
Proof.
  intros K. unfold determine_operand_type_and_value.
  cbn [String.eqb Ascii.eqb Bool.eqb].
  assert (C : contains "@" k = false).
  { destruct K as [<- | [<- | []]]; reflexivity. }
  assert (T : is_type (k ++ "@" ++ t) = false).
  { destruct (is_type (k ++ "@" ++ t)) eqn:E; [|reflexivity].
    apply is_type_no_at in E. rewrite contains_app in E.
    cbn [append contains] in E. rewrite Ascii.eqb_refl, orb_true_r in E.
    discriminate. }
  rewrite T. change (k ++ "@" ++ t) with (k ++ String "@" t).
  rewrite (is_var_at k t C), (is_symb_at k t C).
  destruct K as [<- | [<- | []]]; reflexivity.
Qed.

(** C4, as amended.  A token that resolves against Symbol resolves to one
    of the kinds type, var, int, bool, string, nil.  When the kind is a
    literal kind (int, bool, string, nil), the token rebuilt as kind@value
    is the token itself and resolves to the same kind and value.  When the
    kind is var or type, the value is the whole token and the rebuilt token
    does not resolve. *)
Theorem resolve_rebuild_roundtrip (t k v : string) :
  determine_operand_type_and_value t "s" = Ok (k, v) ->
  In k ["type"; "var"; "int"; "bool"; "string"; "nil"]
  /\ (In k ["int"; "bool"; "string"; "nil"] ->
      k ++ "@" ++ v = t
      /\ determine_operand_type_and_value (k ++ "@" ++ v) "s" = Ok (k, v))
  /\ (In k ["type"; "var"] ->
      v = t
      /\ determine_operand_type_and_value (k ++ "@" ++ v) "s"
         = Err InvalidOperandSyntax).
Proof.
  intros H. pose proof H as H0. unfold determine_operand_type_and_value in H.
  cbn [String.eqb Ascii.eqb Bool.eqb] in H.
  destruct (is_type t) eqn:T; [|destruct (is_var t) eqn:V].
  - injection H as <- <-. repeat split.
    + simpl; auto.
    + simpl in H. intuition discriminate.
    + simpl in H. intuition discriminate.
    + now apply determine_rebuilt.
  - injection H as <- <-. repeat split.
    + simpl; auto.
    + simpl in H. intuition discriminate.
    + simpl in H. intuition discriminate.
    + now apply determine_rebuilt.
  - destruct (is_symb t) eqn:S; [|discriminate].
    destruct (contains_split "@" t (is_symb_contains t S)) as (x & y & -> & Hx).
    rewrite (split1_app "@" x y Hx) in H. injection H as <- <-.
    pose proof (is_symb_keyword x y Hx S) as K.
    split; [simpl in *; tauto|]. split.
    + intros _. split; [reflexivity | exact H0].
    + intros [<- | [<- | []]]; simpl in K; intuition discriminate.
Qed.

Lemma resolve_rebuild_roundtrip_witness :
  determine_operand_type_and_value "int@42" "s" = Ok ("int", "42")
  /\ "int" ++ "@" ++ "42" = "int@42"
  /\ determine_operand_type_and_value ("int" ++ "@" ++ "42") "s" = Ok ("int", "42").
Proof.
  split; [reflexivity|].
  apply (resolve_rebuild_roundtrip "int@42" "int" "42"); [reflexivity|].
  simpl; auto.
Defined.

(** C4, as stated, fails: the variable GF@x resolves to kind var with the
    whole token as its value, and the rebuilt token var@GF@x does not
    resolve. *)
Lemma resolve_rebuild_var_fails :
  determine_operand_type_and_value "GF@x" "s" = Ok ("var", "GF@x")
  /\ determine_operand_type_and_value ("var" ++ "@" ++ "GF@x") "s"
     = Err InvalidOperandSyntax.
Proof. split; reflexivity. Qed.

(** C3, as amended.  For the header line followed by [WRITE label@foo], the
    token label@foo does not resolve against Symbol (it is no type keyword,
    no variable and no symbol, "label" being no type keyword), and the run
    fails with InvalidOperandSyntax. *)
Theorem write_label_token_unresolved :
  determine_operand_type_and_value "label@foo" "s" = Err InvalidOperandSyntax
  /\ main [".IPPcode24" ++ String newline ""; "WRITE label@foo"]
     = Err InvalidOperandSyntax.
Proof. split; reflexivity. Qed.

(** C3, as stated, fails: the token does not resolve to kind label, and
    the failure is not a type mismatch. *)
Lemma write_label_token_not_mismatch :
  determine_operand_type_and_value "label@foo" "s" <> Ok ("label", "label@foo")
  /\ main [".IPPcode24" ++ String newline ""; "WRITE label@foo"]
     <> Err OperandTypeMismatch.
Proof. split; discriminate. Qed.

(** ** Trimming, comments and tokens *)

Lemma before_hash_cons (c : ascii) (s : string) :
  before_hash (String c s) =
  if Ascii.eqb c "#" then "" else String c (before_hash s).
Proof.
  unfold before_hash. cbn [split].
  destruct (Ascii.eqb c "#"); [reflexivity|].
  now destruct (split "#" s).
Qed.

Lemma isspace_not_hash (c : ascii) : isspace c = true -> Ascii.eqb c "#" = false.
Proof.
  intros H. apply Ascii.eqb_neq. intros ->. discriminate.
Qed.

Lemma lstrip_head (s : string) (c : ascii) (s' : string) :
  lstrip s = String c s' -> isspace c = false.
Proof.
  induction s as [|d s IH]; simpl; [discriminate|].
  destruct (isspace d) eqn:E; [exact IH|]. intros H. now injection H as <- _.
Qed.

Lemma rstrip_cons (c : ascii) (s : string) :
  isspace c = false -> rstrip (String c s) = String c (rstrip s).
Proof. intros H. simpl. now rewrite H, andb_false_r. Qed.

Lemma rstrip_idem (s : string) : rstrip (rstrip s) = rstrip s.
Proof.
  induction s as [|c s IH]; simpl; [reflexivity|].
  destruct (is_empty (rstrip s) && isspace c) eqn:E; [reflexivity|].
  simpl. now rewrite IH, E.
Qed.

Lemma rstrip_before_hash (s : string) :
  rstrip (before_hash (rstrip s)) = rstrip (before_hash s).
Proof.
  induction s as [|c s IH]; [reflexivity|].
  rewrite (before_hash_cons c s). cbn [rstrip].
  destruct (Ascii.eqb c "#") eqn:H.
  - apply Ascii.eqb_eq in H as ->. cbn [isspace]. rewrite andb_false_r.
    now rewrite before_hash_cons.
  - destruct (is_empty (rstrip s) && isspace c) eqn:E.
    + apply andb_true_iff in E as [E1 E2]. apply is_empty_true in E1.
      cbn [rstrip]. rewrite <- IH, E1, E2. reflexivity.
    + rewrite before_hash_cons, H. cbn [rstrip]. now rewrite IH.
Qed.

Lemma strip_cons_space (c : ascii) (s : string) :
  isspace c = true -> strip (String c s) = strip s.
Proof. intros H. unfold strip. simpl. now rewrite H. Qed.

Lemma strip_cons_word (c : ascii) (s : string) :
  isspace c = false -> strip (String c s) = String c (rstrip s).
Proof. intros H. unfold strip. simpl. rewrite H. now apply rstrip_cons. Qed.

Lemma content_cons_space (c : ascii) (s : string) :
  isspace c = true -> content (String c s) = content s.
Proof.
  intros H. unfold content.
  rewrite before_hash_cons, (isspace_not_hash c H). now apply strip_cons_space.
Qed.

(** The test of [main] for a line to skip: the trimmed line is empty or
    starts with "#".  It holds exactly for the lines without content. *)
Lemma blank_spec (l : string) :
  startswith "#" (strip l) || is_empty (strip l) = blank l.
Proof.
  induction l as [|c l IH]; [reflexivity|].
  destruct (isspace c) eqn:S.
  - unfold blank. now rewrite strip_cons_space, content_cons_space.
  - unfold blank, content. rewrite (strip_cons_word c l S), before_hash_cons.
    cbn [startswith is_empty]. rewrite orb_false_r.
    destruct (Ascii.eqb c "#"); [reflexivity|].
    now rewrite strip_cons_word.
Qed.

(** Trimming first, as [main] does, does not change the content. *)
Lemma content_strip (l : string) : strip (before_hash (strip l)) = content l.
Proof.
  induction l as [|c l IH]; [reflexivity|].
  destruct (isspace c) eqn:S.
  - now rewrite strip_cons_space, content_cons_space.
  - unfold content. rewrite (strip_cons_word c l S), !before_hash_cons.
    destruct (Ascii.eqb c "#"); [reflexivity|].
    now rewrite !strip_cons_word, rstrip_before_hash.
Qed.

(** ** The loop of [main], line by line *)

Lemma main_step_spec (st : main_state) (l : string) :
  main_step st l =
  if blank l then Ok st
  else if negb (header_found st) then
    if is_header (content l) then Ok (found st) else Err MissingHeader
  else x <- parse_instruction (content l) (order st + 1) ;; Ok (appended st x).
Proof.
  unfold main_step. rewrite blank_spec, content_strip.
  destruct (blank l) eqn:B; [reflexivity|].
  unfold blank in B. now rewrite B.
Qed.

(** ** The words of an instruction line *)

Lemma tokens_lstrip (s : string) : tokens (lstrip s) = tokens s.
Proof.
  induction s as [|c s IH]; [reflexivity|].
  cbn [lstrip]. destruct (isspace c) eqn:S; [|reflexivity].
  rewrite IH. cbn [tokens]. now rewrite S.
Qed.

Lemma tokens_cons_space (c : ascii) (s : string) :
  isspace c = true -> tokens (String c s) = tokens s.
Proof. intros S. cbn [tokens]. now rewrite S. Qed.

Lemma tokens_cons_word (c : ascii) (s : string) :
  isspace c = false ->
  tokens (String c s) =
  match s with
  | EmptyString => [String c ""]
  | String d _ =>
      if isspace d then String c "" :: tokens s else cons_head c (tokens s)
  end.
Proof. intros S. cbn [tokens]. now rewrite S. Qed.

Lemma span_word_tokens (s : string) :
  forall c w r,
    isspace c = false -> span_word (String c s) = (w, r) ->
    tokens (String c s) = w :: tokens r.
Proof.
  induction s as [|d s IH]; intros c w r S H.
  - cbn in H. rewrite S in H. injection H as <- <-. cbn. now rewrite S.
  - rewrite (tokens_cons_word c _ S).
    cbn [span_word] in H. rewrite S in H.
    destruct (isspace d) eqn:D.
    + now injection H as <- <-.
    + fold (span_word s) in H.
      assert (E : span_word (String d s)
                  = let (w', r') := span_word s in (String d w', r')).
      { cbn [span_word]. now rewrite D. }
      rewrite <- E in H.
      destruct (span_word (String d s)) as [w' r'] eqn:E'.
      injection H as <- <-.
      now rewrite (IH d w' r' D E').
Qed.

Lemma rstrip_head (s : string) (c : ascii) (r : string) :
  rstrip s = String c r -> exists s', s = String c s'.
Proof.
  destruct s as [|d s]; simpl; [discriminate|].
  destruct (is_empty (rstrip s) && isspace d); [discriminate|].
  intros H. injection H as <- _. now exists s.
Qed.

Lemma tokens_rstrip (s : string) : tokens (rstrip s) = tokens s.
Proof.
  induction s as [|c s IH]; [reflexivity|].
  destruct (isspace c) eqn:S.
  - rewrite (tokens_cons_space c s S), <- IH. cbn [rstrip]. rewrite S, andb_true_r.
    destruct (rstrip s) as [|d r]; [reflexivity|].
    cbn [is_empty]. now rewrite tokens_cons_space.
  - rewrite (rstrip_cons c s S), !(tokens_cons_word c _ S).
    destruct (rstrip s) as [|d r] eqn:R.
    + destruct s as [|e s']; [reflexivity|].
      destruct (isspace e) eqn:E.
      * now rewrite <- IH.
      * rewrite (rstrip_cons e s' E) in R. discriminate.
    + destruct (rstrip_head s d r R) as (s' & ->).
      now rewrite IH.
Qed.

(** On a text without trailing whitespace, [re.split] yields the tokens,
    preceded by an empty string when the text starts with whitespace. *)
Lemma re_split_ws_tokens (y : string) :
  rstrip y = y ->
  re_split_ws_from true y = (if is_empty y then [""] else tokens y)
  /\ re_split_ws_from false y =
     match y with
     | EmptyString => [""]
     | String c _ => if isspace c then "" :: tokens y else tokens y
     end.
Proof.
  induction y as [|c y IH]; [now split|].
  intros R. cbn [rstrip] in R.
  destruct (is_empty (rstrip y) && isspace c) eqn:E; [discriminate|].
  injection R as R. destruct (IH R) as [IHt IHf].
  cbn [re_split_ws_from is_empty]. destruct (isspace c) eqn:S.
  - rewrite andb_true_r, R in E. rewrite E in IHt.
    rewrite IHt, (tokens_cons_space c y S). now split.
  - rewrite IHf, (tokens_cons_word c y S).
    assert (G : cons_head c
                  match y with
                  | EmptyString => [""]
                  | String d _ => if isspace d then "" :: tokens y else tokens y
                  end
                = match y with
                  | EmptyString => [String c ""]
                  | String d _ =>
                      if isspace d then String c "" :: tokens y
                      else cons_head c (tokens y)
                  end).
    { destruct y as [|d y']; [reflexivity|]. now destruct (isspace d). }
    now rewrite G.
Qed.

Lemma re_split_ws_strip (c : ascii) (s : string) :
  isspace c = false ->
  re_split_ws (strip (String c s)) = tokens (String c s).
Proof.
  intros S. rewrite (strip_cons_word c s S), <- (rstrip_cons c s S).
  unfold re_split_ws.
  destruct (re_split_ws_tokens (rstrip (String c s)) (rstrip_idem _)) as [_ F].
  rewrite F, (rstrip_cons c s S), S, <- (rstrip_cons c s S).
  apply tokens_rstrip.
Qed.

(** ** The instruction parser *)

(** [parse_instruction] in terms of the tokens of the line: the first is the
    opcode, the others are the operands. *)
Lemma parse_instruction_tokens (line : string) (o : nat) (op : string)
  (toks : list string) :
  tokens line = op :: toks ->
  parse_instruction line o =
  match lookup (lower op) instructions with
  | None => Err UnknownOpcode
  | Some operands_expected =>
      if negb (Nat.eqb (List.length toks) (List.length operands_expected))
      then Err ArityMismatch
      else
        args <- parse_operands operands_expected 0 toks ;;
        Ok {| el_order := o; el_opcode := upper (lower op); el_args := args |}
  end.
Proof.
  intros H. rewrite <- tokens_lstrip in H.
  unfold parse_instruction, split_ws_max1.
  destruct (lstrip line) as [|c s1] eqn:L; [discriminate|].
  pose proof (lstrip_head line c s1 L) as S.
  destruct (span_word (String c s1)) as [w r] eqn:E.
  rewrite (span_word_tokens s1 c w r S E) in H. injection H as <- <-.
  cbn [is_empty]. rewrite <- (tokens_lstrip r).
  destruct (lstrip r) as [|d r'] eqn:Lr.
  - cbn. destruct (lookup (lower w) instructions); reflexivity.
  - pose proof (lstrip_head r d r' Lr) as D.
    cbn [is_empty List.length Nat.ltb Nat.leb nth tl is_nil negb orb String.eqb].
    now rewrite (re_split_ws_strip d r' D).
Qed.

Lemma determine_error (operand expected_type : string) (e : error) :
  determine_operand_type_and_value operand expected_type = Err e ->
  e = InvalidOperandSyntax.
Proof.
  unfold determine_operand_type_and_value.
  destruct (String.eqb expected_type "l").
  - destruct (is_label operand); [discriminate | congruence].
  - destruct (is_type operand); [discriminate|].
    destruct (is_var operand); [discriminate|].
    destruct (is_symb operand); [|congruence].
    destruct (split1 "@" operand) as [|x [|y [|z l]]]; congruence.
Qed.

Section OperandLoop.

Variable sig : list string.

Lemma parse_operand_error (i : nat) (t : string) (e : error) :
  i < List.length sig ->
  parse_operand sig i t = Err e ->
  e = InvalidOperandSyntax \/ e = OperandTypeMismatch.
Proof.
  intros I. unfold parse_operand.
  destruct (nth_error sig i) as [x|] eqn:N.
  - destruct (determine_operand_type_and_value t x) as [[k v]|e'] eqn:D;
      cbn [bind].
    + destruct (negb (validate_operand_type x k t)); [|discriminate].
      intros H. injection H as <-. now right.
    + intros H. injection H as <-. left. eapply determine_error, D.
  - apply nth_error_None in N. lia.
Qed.

Lemma parse_operands_error (toks : list string) :
  forall i e,
    i + List.length toks <= List.length sig ->
    parse_operands sig i toks = Err e ->
    e = InvalidOperandSyntax \/ e = OperandTypeMismatch.
Proof.
  induction toks as [|t toks IH]; intros i e L; cbn [parse_operands];
    [discriminate|].
  cbn [List.length] in L.
  destruct (parse_operand sig i t) as [a|e'] eqn:P; cbn [bind].
  - destruct (parse_operands sig (S i) toks) as [l|e'] eqn:Q; cbn [bind];
      [discriminate|].
    intros H. injection H as <-. apply (IH (S i)); [lia | exact Q].
  - intros H. injection H as <-. apply (parse_operand_error i t); [lia | exact P].
Qed.

(** The loop stops at the first operand that fails. *)
Lemma parse_operands_stops (t : string) (post : list string) (e : error)
  (pre : list string) :
  forall i,
    parse_operand sig (i + List.length pre) t = Err e ->
    exists e',
      parse_operands sig i (pre ++ t :: post) = Err e'
      /\ (forall args, parse_operands sig i pre = Ok args -> e' = e).
Proof.
  induction pre as [|p pre IH]; intros i H; cbn [app parse_operands].
  - rewrite Nat.add_0_r in H. rewrite H. exists e. now split.
  - destruct (parse_operand sig i p) as [a|e0]; cbn [bind].
    + cbn [List.length] in H. rewrite Nat.add_succ_r in H.
      destruct (IH (S i) H) as (e' & -> & Q). cbn [bind].
      exists e'. split; [reflexivity|]. intros args.
      destruct (parse_operands sig (S i) pre) as [l|e1]; cbn [bind];
        [|discriminate].
      intros _. now apply (Q l).
    + exists e0. split; [reflexivity | discriminate].
Qed.

End OperandLoop.

(** C6.  For a line whose first token, in lower case, is a key of the
    signature table with a signature of length k, [parse_instruction] fails
    with ArityMismatch exactly when the number of operand tokens (the
    tokens after the first) differs from k. *)
Theorem arity_check_exact (line : string) (o : nat) (op : string)
  (toks sig : list string) :
  tokens line = op :: toks ->
  lookup (lower op) instructions = Some sig ->
  (parse_instruction line o = Err ArityMismatch
   <-> List.length toks <> List.length sig).
Proof.
  intros T K. rewrite (parse_instruction_tokens line o op toks T), K.
  destruct (Nat.eqb_spec (List.length toks) (List.length sig)) as [E|E];
    cbn [negb].
  - split; [|tauto]. intros H.
    destruct (parse_operands sig 0 toks) as [l|e] eqn:P; cbn [bind] in H;
      [discriminate|].
    injection H as ->.
    apply parse_operands_error in P as [P | P]; [discriminate..|simpl; lia].
  - tauto.
Qed.

Lemma arity_check_exact_witness :
  tokens "PUSHS" = ["PUSHS"]
  /\ lookup (lower "PUSHS") instructions = Some ["s"]
  /\ (parse_instruction "PUSHS" 1 = Err ArityMismatch
      <-> List.length (@nil string) <> List.length ["s"]).
Proof.
  split; [reflexivity|]. split; [reflexivity|].
  apply (arity_check_exact "PUSHS" 1 "PUSHS" [] ["s"]); reflexivity.
Defined.

Example pushs_without_operand : parse_instruction "PUSHS" 1 = Err ArityMismatch.
Proof. reflexivity. Qed.

Example break_with_operand :
  parse_instruction "BREAK GF@x" 1 = Err ArityMismatch.
Proof. reflexivity. Qed.

Example pushs_with_two_operands :
  parse_instruction "pushs  int@1   int@2 " 1 = Err ArityMismatch.
Proof. reflexivity. Qed.

(** C8.  At an operand position whose expected category is Symbol, a token
    that resolves to kind type (such as the bare token int) makes the turn
    of the operand loop for that position fail with OperandTypeMismatch: the
    token is never taken for a symbol.  Hence the line is never accepted,
    and the parser fails with OperandTypeMismatch whenever it reaches that
    position (the line has the arity of its signature and the operands
    before the position are accepted). *)
Theorem type_token_in_symbol_slot (line : string) (o : nat) (op : string)
  (pre : list string) (t : string) (post sig : list string) (v : string) :
  tokens line = op :: pre ++ t :: post ->
  lookup (lower op) instructions = Some sig ->
  nth_error sig (List.length pre) = Some "s" ->
  determine_operand_type_and_value t "s" = Ok ("type", v) ->
  parse_operand sig (List.length pre) t = Err OperandTypeMismatch
  /\ (exists e, parse_instruction line o = Err e)
  /\ (List.length (pre ++ t :: post) = List.length sig ->
      forall args, parse_operands sig 0 pre = Ok args ->
      parse_instruction line o = Err OperandTypeMismatch).
Proof.
  intros T K N D.
  assert (P : parse_operand sig (List.length pre) t = Err OperandTypeMismatch).
  { unfold parse_operand. rewrite N, D. reflexivity. }
  destruct (parse_operands_stops sig t post OperandTypeMismatch pre 0 P)
    as (e' & S & Q).
  rewrite (parse_instruction_tokens line o op _ T), K.
  split; [exact P|]. split.
  - destruct (negb _); [now exists ArityMismatch|].
    rewrite S. now exists e'.
  - intros L args A. rewrite L, Nat.eqb_refl. cbn [negb].
    rewrite S. cbn [bind]. now rewrite (Q args A).
Qed.

Lemma type_token_in_symbol_slot_witness :
  tokens "MOVE GF@x int" = "MOVE" :: (["GF@x"] ++ "int" :: [])%list
  /\ lookup (lower "MOVE") instructions = Some ["v"; "s"]
  /\ nth_error ["v"; "s"] (List.length ["GF@x"]) = Some "s"
  /\ determine_operand_type_and_value "int" "s" = Ok ("type", "int")
  /\ parse_operands ["v"; "s"] 0 ["GF@x"]
     = Ok [ {| arg_index := 1; arg_type := "var"; arg_text := "GF@x" |} ]
  /\ parse_instruction "MOVE GF@x int" 1 = Err OperandTypeMismatch.
Proof.
  do 5 (split; [reflexivity|]).
  apply (proj2 (proj2 (type_token_in_symbol_slot "MOVE GF@x int" 1 "MOVE"
                         ["GF@x"] "int" [] ["v"; "s"] "int"
                         eq_refl eq_refl eq_refl eq_refl))
           eq_refl
           [ {| arg_index := 1; arg_type := "var"; arg_text := "GF@x" |} ]).
  reflexivity.
Defined.

Example write_bare_int : parse_instruction "WRITE int" 1 = Err OperandTypeMismatch.
Proof. reflexivity. Qed.

Example move_var_bare_int :
  parse_instruction "MOVE GF@x int" 1 = Err OperandTypeMismatch.
Proof. reflexivity. Qed.

Lemma parse_instruction_inv (line : string) (o : nat) :
  parse_instruction line o = Err MissingInstruction
  \/ exists op toks, tokens line = op :: toks.
Proof.
  destruct (lstrip line) as [|c s1] eqn:L.
  - left. unfold parse_instruction, split_ws_max1. now rewrite L.
  - right. rewrite <- tokens_lstrip, L.
    destruct (span_word (String c s1)) as [w r] eqn:E.
    exists w, (tokens r).
    apply span_word_tokens; [now apply (lstrip_head line c s1) | exact E].
Qed.

Lemma parse_instruction_order (line : string) (o : nat) (x : instruction_element) :
  parse_instruction line o = Ok x -> el_order x = o.
Proof.
  destruct (parse_instruction_inv line o) as [-> | (op & toks & T)];
    [discriminate|].
  rewrite (parse_instruction_tokens line o op toks T).
  destruct (lookup (lower op) instructions) as [sig|]; [|discriminate].
  destruct (negb _); [discriminate|].
  destruct (parse_operands sig 0 toks); cbn [bind]; [|discriminate].
  intros H. now injection H as <-.
Qed.

(** Every failure of the instruction parser is a content-level one. *)
Lemma parse_instruction_exit (line : string) (o : nat) (e : error) :
  parse_instruction line o = Err e -> exit_code e = 23.
Proof.
  destruct (parse_instruction_inv line o) as [-> | (op & toks & T)].
  - intros H. now injection H as <-.
  - rewrite (parse_instruction_tokens line o op toks T).
    destruct (lookup (lower op) instructions) as [sig|];
      [|intros H; now injection H as <-].
    destruct (Nat.eqb_spec (List.length toks) (List.length sig)) as [E|E];
      cbn [negb]; [|intros H; now injection H as <-].
    destruct (parse_operands sig 0 toks) as [l|e'] eqn:P; cbn [bind];
      [discriminate|].
    intros H. injection H as <-.
    apply parse_operands_error in P as [-> | ->]; [reflexivity..|simpl; lia].
Qed.

(** ** The program assembler *)

(** Once the header is found, the loop keeps it found, numbers the lines
    with content consecutively, and fails with content-level failures only. *)
Lemma main_loop_body (lines : list string) :
  forall st,
    header_found st = true ->
    match main_loop st lines with
    | Ok st' =>
        header_found st' = true
        /\ map el_order (instructions_xml st') =
           (map el_order (instructions_xml st)
            ++ seq (order st + 1) (List.length (filter has_content lines)))%list
    | Err e => exit_code e = 23
    end.
Proof.
  induction lines as [|l lines IH]; intros st F; cbn [main_loop filter].
  - cbn [List.length seq]. now rewrite app_nil_r.
  - rewrite main_step_spec. unfold has_content at 1.
    destruct (blank l); cbn [negb bind]; [now apply IH|].
    rewrite F. cbn [negb].
    destruct (parse_instruction (content l) (order st + 1)) as [x|e] eqn:P;
      cbn [bind]; [|now apply parse_instruction_exit in P].
    specialize (IH (appended st x) F).
    destruct (main_loop (appended st x) lines) as [st'|e]; [|exact IH].
    destruct IH as [F' M]. split; [exact F'|].
    rewrite M. cbn [appended instructions_xml order List.length seq].
    rewrite map_app, <- app_assoc. cbn [map app].
    rewrite (parse_instruction_order _ _ x P).
    now replace (order st + 1 + 1) with (S (order st + 1)) by lia.
Qed.

Lemma main_loop_init (lines : list string) :
  main_loop main_init lines =
  match first_content lines with
  | None => Ok main_init
  | Some c =>
      if is_header c then main_loop (found main_init) (body_lines lines)
      else Err MissingHeader
  end.
Proof.
  induction lines as [|l lines IH]; cbn [main_loop first_content body_lines];
    [reflexivity|].
  rewrite main_step_spec. destruct (blank l); cbn [bind]; [exact IH|].
  cbn [main_init header_found negb].
  now destruct (is_header (content l)).
Qed.

(** [main] in terms of the header line and the body lines. *)
Lemma main_spec (lines : list string) :
  main lines =
  if header_accepted lines then
    st <- main_loop (found main_init) (body_lines lines) ;;
    Ok (instructions_xml st)
  else Err MissingHeader.
Proof.
  unfold main, header_accepted. rewrite main_loop_init.
  destruct (first_content lines) as [c|]; [|reflexivity].
  destruct (is_header c); [|reflexivity].
  pose proof (main_loop_body (body_lines lines) (found main_init) eq_refl) as B.
  destruct (main_loop (found main_init) (body_lines lines)) as [st|e];
    [|reflexivity].
  cbn [bind]. destruct B as [-> _]. reflexivity.
Qed.

(** C5.  When [main] succeeds, the order values of the instruction records
    are exactly 1, 2, ..., N in this order, where N is the number of body
    lines (the lines after the header line) that are not empty after
    comment-stripping and trimming. *)
Theorem order_values_consecutive (lines : list string)
  (recs : list instruction_element) :
  main lines = Ok recs ->
  map el_order recs = seq 1 (List.length (instruction_lines lines)).
Proof.
  rewrite main_spec. destruct (header_accepted lines); [|discriminate].
  pose proof (main_loop_body (body_lines lines) (found main_init) eq_refl) as B.
  destruct (main_loop (found main_init) (body_lines lines)) as [st|e];
    cbn [bind]; [|discriminate].
  intros H. injection H as <-. now destruct B as [_ ->].
Qed.

Lemma order_values_consecutive_witness :
  main ["# program"; " .IPPcode24 # header"; ""; "createframe";
        "  # comment only"; "BREAK # stop"]
  = Ok [ {| el_order := 1; el_opcode := "CREATEFRAME"; el_args := [] |};
         {| el_order := 2; el_opcode := "BREAK"; el_args := [] |} ]
  /\ map el_order
       [ {| el_order := 1; el_opcode := "CREATEFRAME"; el_args := [] |};
         {| el_order := 2; el_opcode := "BREAK"; el_args := [] |} ]
     = seq 1 (List.length
                (instruction_lines
                   ["# program"; " .IPPcode24 # header"; ""; "createframe";
                    "  # comment only"; "BREAK # stop"])).
Proof.
  split; [reflexivity|].
  apply (order_values_consecutive
           ["# program"; " .IPPcode24 # header"; ""; "createframe";
            "  # comment only"; "BREAK # stop"]).
  reflexivity.
Defined.

Lemma main_loop_blank (lines : list string) (st : main_state) :
  forallb blank lines = true -> main_loop st lines = Ok st.
Proof.
  induction lines as [|l lines IH]; cbn [forallb main_loop]; [reflexivity|].
  intros H. apply andb_true_iff in H as [B H].
  rewrite main_step_spec, B. cbn [bind]. now apply IH.
Qed.

(** C7.  When no line is accepted as the header (the input is empty, has
    only blank or comment-only lines, or its first line with content is not
    the header), [main] fails with MissingHeader.  When the input is the
    header with only blank or comment-only lines around it, [main] succeeds
    with the empty instruction sequence. *)
Theorem header_required (lines : list string) :
  (header_accepted lines = false -> main lines = Err MissingHeader)
  /\ (header_only lines = true -> main lines = Ok []).
Proof.
  rewrite main_spec. split.
  - now intros ->.
  - unfold header_only. intros H. apply andb_true_iff in H as [-> B].
    now rewrite (main_loop_blank _ _ B).
Qed.

Lemma header_required_witness :
  (header_accepted ["# only a comment"; "MOVE GF@x int@42"] = false
   /\ main ["# only a comment"; "MOVE GF@x int@42"] = Err MissingHeader)
  /\ (header_only [""; "# intro"; ".ippcode24  # header"; "   "; "#end"] = true
      /\ main [""; "# intro"; ".ippcode24  # header"; "   "; "#end"] = Ok []).
Proof.
  split.
  - split; [reflexivity|].
    apply (proj1 (header_required ["# only a comment"; "MOVE GF@x int@42"])).
    reflexivity.
  - split; [reflexivity|].
    apply (proj2 (header_required
                    [""; "# intro"; ".ippcode24  # header"; "   "; "#end"])).
    reflexivity.
Defined.

Example empty_input : main [] = Err MissingHeader.
Proof. reflexivity. Qed.

Example only_comments : main ["# a"; "   "; ""] = Err MissingHeader.
Proof. reflexivity. Qed.

Lemma first_content_app (prefix rest : list string) (c : string) :
  first_content prefix = Some c ->
  first_content (prefix ++ rest) = Some c
  /\ body_lines (prefix ++ rest) = (body_lines prefix ++ rest)%list.
Proof.
  induction prefix as [|l prefix IH]; cbn [first_content body_lines app];
    [discriminate|].
  destruct (blank l); [exact IH|]. now intros ->.
Qed.

Lemma main_loop_app (l1 l2 : list string) :
  forall st,
    main_loop st (l1 ++ l2) = st' <- main_loop st l1 ;; main_loop st' l2.
Proof.
  induction l1 as [|l l1 IH]; intros st; cbn [app main_loop bind];
    [reflexivity|].
  destruct (main_step st l) as [st'|e]; cbn [bind]; [apply IH | reflexivity].
Qed.

Lemma parse_header_again (o : nat) :
  parse_instruction ".IPPcode24" o = Err UnknownOpcode.
Proof.
  now rewrite (parse_instruction_tokens ".IPPcode24" o ".IPPcode24" [] eq_refl).
Qed.

(** C10.  The header is consumed at most once.  Once the header has been
    found, a line with the content .IPPcode24 is not taken for a header: the
    loop hands it to the instruction parser, which fails with UnknownOpcode.
    So an input with such a line after the accepted header always fails
    with a content-level failure, and it fails with UnknownOpcode when the
    lines before that line run without failure (a failure ends the run at
    once). *)
Theorem header_consumed_once (prefix : list string) (dup : string)
  (rest : list string) :
  header_accepted prefix = true ->
  content dup = ".IPPcode24" ->
  (forall st, header_found st = true -> main_step st dup = Err UnknownOpcode)
  /\ (exists e, main (prefix ++ dup :: rest) = Err e /\ exit_code e = 23)
  /\ (forall recs, main prefix = Ok recs ->
      main (prefix ++ dup :: rest) = Err UnknownOpcode).
Proof.
  intros A C.
  assert (S : forall st, header_found st = true ->
                         main_step st dup = Err UnknownOpcode).
  { intros st F. rewrite main_step_spec. unfold blank.
    rewrite C, F. cbn [is_empty negb]. now rewrite parse_header_again. }
  split; [exact S|].
  rewrite !main_spec, A. unfold header_accepted in *.
  destruct (first_content prefix) as [c|] eqn:Fc; [|discriminate].
  destruct (first_content_app prefix (dup :: rest) c Fc) as [-> ->].
  rewrite A, main_loop_app.
  pose proof (main_loop_body (body_lines prefix) (found main_init) eq_refl) as B.
  destruct (main_loop (found main_init) (body_lines prefix)) as [st|e];
    cbn [bind].
  - destruct B as [F _]. cbn [main_loop]. rewrite (S st F). cbn [bind].
    split; [now exists UnknownOpcode | reflexivity].
  - split; [now exists e | discriminate].
Qed.

Lemma header_consumed_once_witness :
  header_accepted [".IPPcode24"; "CREATEFRAME"] = true
  /\ content " .IPPcode24 # again" = ".IPPcode24"
  /\ main [".IPPcode24"; "CREATEFRAME"]
     = Ok [ {| el_order := 1; el_opcode := "CREATEFRAME"; el_args := [] |} ]
  /\ main ([".IPPcode24"; "CREATEFRAME"] ++ " .IPPcode24 # again" :: ["BREAK"])
     = Err UnknownOpcode.
Proof.
  do 3 (split; [reflexivity|]).
  apply (proj2 (proj2 (header_consumed_once [".IPPcode24"; "CREATEFRAME"]
                         " .IPPcode24 # again" ["BREAK"] eq_refl eq_refl))
           [ {| el_order := 1; el_opcode := "CREATEFRAME"; el_args := [] |} ]).
  reflexivity.
Defined.

Example header_twice :
  main [".IPPcode24"; "CREATEFRAME"; ".IPPcode24"; "BREAK"] = Err UnknownOpcode.
Proof. reflexivity. Qed.

Example header_after_failing_line :
  main [".IPPcode24"; "PUSHS"; ".IPPcode24"] = Err ArityMismatch.
Proof. reflexivity. Qed.

(** * Further properties of the classifiers *)

(** X2.  [is_label] accepts exactly the names: a first character that is an
    ASCII letter, an underscore or one of - $ & % * ! ?, then word
    characters or these symbols; one final line feed is tolerated. *)
Theorem is_label_spec (s : string) :
  is_label s = true <-> exists w, upto_newline w s /\ var_name w.
Proof.
  unfold is_label. rewrite re_match_lang.
  split; intros (w & U & H); exists w; split; auto; now apply name_re_lang.
Qed.

Lemma set_has_digit09 (c : ascii) : set_has [Range "0" "9"] c = is_ascii_digit c.
Proof. unfold set_has. cbn [existsb item_has]. apply orb_false_r. Qed.

Lemma set_has_plain (c : ascii) :
  set_has [One "\"; ClsS] c = Ascii.eqb c "\" || isspace c.
Proof. unfold set_has. cbn [existsb item_has]. now rewrite orb_false_r. Qed.

Lemma string_re_escaped (w : string) : lang string_re w -> escaped w = true.
Proof.
  unfold string_re. cbn [lang].
  induction 1 as [|s1 s2 H1 _ IH]; [reflexivity|].
  destruct H1 as [(c & -> & H) | (x & y & -> & -> & H)].
  - rewrite set_has_plain in H. apply orb_false_iff in H as [B S].
    cbn [append escaped]. now rewrite B, S, IH.
  - unfold digit09 in H. cbn [lang] in H.
    destruct H as (y1 & y' & -> & (d1 & -> & D1) & y2 & y3 & ->
                   & (d2 & -> & D2) & (d3 & -> & D3)).
    rewrite set_has_digit09 in D1, D2, D3.
    cbn [append escaped]. rewrite Ascii.eqb_refl. now rewrite D1, D2, D3, IH.
Qed.

Lemma escaped_string_re (n : nat) :
  forall w, String.length w <= n -> escaped w = true -> lang string_re w.
Proof.
  unfold string_re. cbn [lang].
  induction n as [|n IH]; intros w L E.
  - destruct w; [constructor | simpl in L; lia].
  - destruct w as [|c w]; [constructor|].
    cbn [escaped] in E. cbn [String.length] in L.
    destruct (Ascii.eqb c "\") eqn:B.
    + apply Ascii.eqb_eq in B as ->.
      destruct w as [|d1 [|d2 [|d3 w]]]; try discriminate.
      apply andb_true_iff in E as [E E4]. apply andb_true_iff in E as [E E3].
      apply andb_true_iff in E as [E1 E2].
      cbn [String.length] in L.
      apply (star_app _ (String "\" (String d1 (String d2 (String d3 "")))) w).
      * right. exists (String "\" ""), (String d1 (String d2 (String d3 ""))).
        repeat split. unfold digit09. cbn [lang].
        exists (String d1 ""), (String d2 (String d3 "")). repeat split.
        -- exists d1. now rewrite set_has_digit09.
        -- exists (String d2 ""), (String d3 ""). repeat split.
           ++ exists d2. now rewrite set_has_digit09.
           ++ exists d3. now rewrite set_has_digit09.
      * apply IH; [lia | exact E4].
    + apply andb_true_iff in E as [S E]. apply negb_true_iff in S.
      apply (star_app _ (String c "") w).
      * left. exists c. now rewrite set_has_plain, B, S.
      * apply IH; [lia | exact E].
Qed.

Lemma string_re_lang (w : string) : lang string_re w <-> escaped w = true.
Proof.
  split; [apply string_re_escaped | apply (escaped_string_re (String.length w))].
  constructor.
Qed.

(** The value part of an accepted symbol, by type keyword. *)
Lemma is_symb_at_value (type_ value : string) :
  contains "@" type_ = false ->
  (is_symb (type_ ++ String "@" value) = true <-> symb_value type_ value).
Proof.
  intros C. unfold symb_value. split.
  - intros H. pose proof (is_symb_keyword type_ value C H) as K.
    rewrite (is_symb_at type_ value C) in H.
    destruct K as [<- | [<- | [<- | [<- | []]]]];
      change (is_type "int") with true in H;
      change (is_type "bool") with true in H;
      change (is_type "string") with true in H;
      change (is_type "nil") with true in H;
      cbn [negb String.eqb Ascii.eqb Bool.eqb andb] in H.
    + right; left. split; [reflexivity|].
      assert (exists w, upto_newline w value
                        /\ (lang int_dec_re w \/ lang int_hex_re w
                            \/ lang int_oct_re w \/ lang int_plus_re w))
        as (w & U & L).
      { repeat (apply orb_true_iff in H as [H | H]);
          apply re_match_lang in H as (w & U & L); exists w; tauto. }
      exists w. now rewrite <- int_res_lang.
    + right; right; left. split; [reflexivity|].
      apply mem_In in H as [<- | [<- | []]]; auto.
    + right; right; right. split; [reflexivity|].
      apply re_match_lang in H as (w & U & L). exists w.
      now rewrite <- string_re_lang.
    + left. split; [reflexivity|]. now apply String.eqb_eq in H.
  - rewrite (is_symb_at type_ value C).
    intros [[-> ->] | [[-> (w & U & F)] | [[-> V] | [-> (w & U & E)]]]].
    + reflexivity.
    + change (is_type "int") with true.
      cbn [negb String.eqb Ascii.eqb Bool.eqb andb].
      apply int_res_lang in F. rewrite !orb_true_iff, !re_match_lang.
      destruct F as [L | [L | [L | L]]].
      * left; left; left. now exists w.
      * left; left; right. now exists w.
      * left; right. now exists w.
      * right. now exists w.
    + destruct V as [-> | ->]; reflexivity.
    + change (is_type "string") with true.
      cbn [negb String.eqb Ascii.eqb Bool.eqb andb].
      apply re_match_lang. exists w. now rewrite string_re_lang.
Qed.

(** X3.  [is_symb] accepts exactly the tokens type@value, split at the
    first "@", where the type is nil and the value is nil; or the type is
    int and the value has one of the four integer forms; or the type is bool
    and the value is true or false; or the type is string and the value is
    made of characters other than backslash and whitespace and of escapes
    of a backslash and exactly three digits.  For int and string one final
    line feed after the value is tolerated. *)
Theorem is_symb_spec (t : string) :
  is_symb t = true <->
  exists type_ value,
    t = type_ ++ "@" ++ value /\ contains "@" type_ = false
    /\ symb_value type_ value.
Proof.
  split.
  - intros H.
    destruct (contains_split "@" t (is_symb_contains t H)) as (x & y & -> & Hx).
    exists x, y. repeat split; [exact Hx|]. now apply is_symb_at_value.
  - intros (x & y & -> & Hx & V). now apply (is_symb_at_value x y Hx).
Qed.

(** X4.  A string symbol string@V is accepted exactly when V, up to one
    final line feed, contains no whitespace and every backslash in it
    starts an escape of exactly three decimal digits. *)
Theorem is_symb_string_escapes (V : string) :
  is_symb ("string@" ++ V) = true <->
  exists w, upto_newline w V /\ escaped w = true.
Proof.
  change ("string@" ++ V) with ("string" ++ String "@" V).
  rewrite is_symb_at_value by reflexivity. unfold symb_value. split.
  - intros [[E _] | [[E _] | [[E _] | [_ H]]]]; try discriminate. exact H.
  - intros H. right; right; right. now split.
Qed.

Example string_escape_ok : is_symb "string@a\032b\010" = true.
Proof. reflexivity. Qed.

Example string_escape_short : is_symb "string@a\03" = false.
Proof. reflexivity. Qed.

Example string_escape_letters : is_symb "string@a\n" = false.
Proof. reflexivity. Qed.

(** No word of the name pattern, of the keyword pattern or of the variable
    frames contains an "@". *)
Lemma is_label_no_at (s : string) : is_label s = true -> contains "@" s = false.
Proof. unfold is_label. apply re_match_avoids; reflexivity. Qed.

Lemma no_at_not_var (t : string) : contains "@" t = false -> is_var t = false.
Proof. intros H. unfold is_var. now rewrite H. Qed.

Lemma no_at_not_symb (t : string) : contains "@" t = false -> is_symb t = false.
Proof. intros H. unfold is_symb. now rewrite H. Qed.

Lemma is_var_not_symb (t : string) : is_var t = true -> is_symb t = false.
Proof.
  intros H. assert (C : contains "@" t = true).
  { unfold is_var in H. now destruct (contains "@" t). }
  destruct (contains_split "@" t C) as (x & y & -> & Hx).
  rewrite (is_var_at x y Hx) in H. rewrite (is_symb_at x y Hx).
  destruct (mem x ["GF"; "TF"; "LF"]) eqn:M; [|discriminate].
  apply mem_In in M as [<- | [<- | [<- | []]]]; reflexivity.
Qed.

(** X5.  The classifiers the resolver tries in turn exclude one another: a
    token is at most one of type keyword, variable and symbol, and a label
    is neither a variable nor a symbol (a label may be a type keyword). *)
Theorem classifiers_disjoint (t : string) :
  is_type t && (is_var t || is_symb t) = false
  /\ is_var t && is_symb t = false
  /\ is_label t && (is_var t || is_symb t) = false.
Proof.
  repeat split.
  - destruct (is_type t) eqn:T; [|reflexivity].
    apply is_type_no_at in T.
    now rewrite (no_at_not_var t T), (no_at_not_symb t T).
  - destruct (is_var t) eqn:V; [|reflexivity]. now rewrite (is_var_not_symb t V).
  - destruct (is_label t) eqn:L; [|reflexivity].
    apply is_label_no_at in L.
    now rewrite (no_at_not_var t L), (no_at_not_symb t L).
Qed.

Example label_and_type : is_label "int" && is_type "int" = true.
Proof. reflexivity. Qed.

(** * The header line *)

Lemma lang_Star_ws (s : string) : lang (Star ws) s <-> str_all isspace s = true.
Proof.
  unfold ws. rewrite lang_Star_In.
  now rewrite (str_all_ext (set_has [ClsS]) isspace s (fun c => orb_false_r _)).
Qed.

Lemma lang_ignorecase_Str (w : string) :
  forall h, lang (ignorecase (Str w)) h <-> lower h = lower w.
Proof.
  induction w as [|c w IH]; intros h; cbn [Str ignorecase lang lower].
  - destruct h; cbn [lower]; split; congruence.
  - split.
    + intros (s1 & s2 & -> & (d & -> & E) & H). apply IH in H.
      cbn [append lower]. now rewrite E, H.
    + destruct h as [|d h]; cbn [lower]; [discriminate|].
      intros E. injection E as E1 E2.
      exists (String d ""), h. repeat split; [now exists d | now apply IH].
Qed.

Lemma str_all_app (p : ascii -> bool) (s1 s2 : string) :
  str_all p (s1 ++ s2) = str_all p s1 && str_all p s2.
Proof.
  induction s1 as [|c s1 IH]; simpl; [reflexivity|].
  now rewrite IH, andb_assoc.
Qed.

(** A header is the text .IPPcode24 in any letter case between whitespace. *)
Lemma is_header_parts (s : string) :
  is_header s = true <->
  exists pre h post,
    s = pre ++ h ++ post
    /\ str_all isspace pre = true /\ str_all isspace post = true
    /\ lower h = ".ippcode24".
Proof.
  unfold is_header, header_re. rewrite re_match_lang.
  cbn [ignorecase]. change (ignorecase ws) with ws. split.
  - intros (w & U & pre & x & -> & P & h & post & -> & H & Q).
    apply lang_Star_ws in P, Q. apply lang_ignorecase_Str in H.
    destruct U as [-> | ->].
    + now exists pre, h, post.
    + exists pre, h, (post ++ String newline "").
      rewrite !append_assoc, str_all_app, Q. now repeat split.
  - intros (pre & h & post & -> & P & Q & H).
    exists (pre ++ h ++ post). split; [now left|].
    exists pre, (h ++ post). repeat split; [now apply lang_Star_ws|].
    exists h, post. repeat split; [now apply lang_ignorecase_Str
                                  | now apply lang_Star_ws].
Qed.

Lemma lower_char_space (c : ascii) : isspace c = true -> lower_char c = c.
Proof.
  destruct c as [[] [] [] [] [] [] [] []]; vm_compute; congruence.
Qed.

Lemma lower_nonspace (h : string) :
  str_all nonspace (lower h) = true -> str_all nonspace h = true.
Proof.
  induction h as [|c h IH]; cbn [lower str_all]; [reflexivity|].
  intros H. apply andb_true_iff in H as [H1 H2]. rewrite (IH H2), andb_true_r.
  unfold nonspace in *. destruct (isspace c) eqn:S; [|reflexivity].
  now rewrite (lower_char_space c S), S in H1.
Qed.

Lemma header_word (h : string) :
  lower h = ".ippcode24" -> str_all nonspace h = true /\ h <> "".
Proof.
  intros H. split.
  - apply lower_nonspace. now rewrite H.
  - intros ->. discriminate.
Qed.









Example header_mixed_case : is_header "  .iPpCoDe24 " = true.
Proof. reflexivity. Qed.

Example header_with_text : is_header ".IPPcode24 x" = false.
Proof. reflexivity. Qed.

Lemma tokens_spaces (pre x : string) :
  str_all isspace pre = true -> tokens (pre ++ x) = tokens x.
Proof.
  induction pre as [|c pre IH]; cbn [str_all append]; [reflexivity|].
  intros H. apply andb_true_iff in H as [S H].
  now rewrite (tokens_cons_space c _ S), (IH H).
Qed.

Lemma tokens_word_spaces (h post : string) :
  forall c,
    isspace c = false -> str_all nonspace h = true ->
    str_all isspace post = true ->
    tokens (String c (h ++ post)) = [String c h].
Proof.
  induction h as [|d h IH]; intros c S H Q; rewrite (tokens_cons_word c _ S).
  - cbn [append]. destruct post as [|e post]; [reflexivity|].
    pose proof Q as Q'. cbn [str_all] in Q'.
    apply andb_true_iff in Q' as [-> _].
    rewrite <- (append_empty_r (String e post)), (tokens_spaces _ "" Q).
    reflexivity.
  - cbn [append]. cbn [str_all] in H. apply andb_true_iff in H as [D H].
    apply negb_true_iff in D. rewrite D.
    change (String d (h ++ post)) with (String d h ++ post) in *.
    cbn [append]. now rewrite (IH d D H Q).
Qed.

Lemma tokens_parts (pre h post : string) :
  str_all isspace pre = true -> str_all nonspace h = true -> h <> "" ->
  str_all isspace post = true ->
  tokens (pre ++ h ++ post) = [h].
Proof.
  intros P H N Q. rewrite (tokens_spaces pre _ P).
  destruct h as [|c h]; [congruence|].
  cbn [str_all] in H. apply andb_true_iff in H as [S H].
  apply negb_true_iff in S. now apply tokens_word_spaces.
Qed.

(** X7.  Once the header is found, any further line that [is_header] would
    accept, in whatever letter case and with whatever comment, is handed to
    the instruction parser and fails with UnknownOpcode. *)
Theorem header_line_in_body (st : main_state) (line : string) :
  header_found st = true ->
  is_header (content line) = true ->
  main_step st line = Err UnknownOpcode.
Proof.
  intros F H. apply is_header_parts in H as (pre & h & post & E & P & Q & L).
  destruct (header_word h L) as [N Z].
  pose proof (tokens_parts pre h post P N Z Q) as T. rewrite <- E in T.
  rewrite main_step_spec. unfold blank.
  destruct (content line) as [|c s] eqn:C; [discriminate|].
  cbn [is_empty]. rewrite F. cbn [negb].
  now rewrite (parse_instruction_tokens _ _ h [] T), L.
Qed.

Lemma header_line_in_body_witness :
  header_found (found main_init) = true
  /\ is_header (content " .ippCODE24  # once more") = true
  /\ main_step (found main_init) " .ippCODE24  # once more" = Err UnknownOpcode.
Proof.
  do 2 (split; [reflexivity|]).
  apply (header_line_in_body (found main_init) " .ippCODE24  # once more");
    reflexivity.
Defined.

(** * Operands and their slots *)

Lemma validate_spec (e a operand : string) :
  validate_operand_type e a operand = true <->
  (e = "v" /\ a = "var")
  \/ (e = "s" /\ In a ["var"; "int"; "bool"; "string"; "nil"])
  \/ (e = "l" /\ a = "label")
  \/ (e = "t" /\ a = "type").
Proof.
  assert (E : validate_operand_type e a operand
              = (String.eqb e "v" && String.eqb a "var")
                || (String.eqb e "s"
                    && mem a ["var"; "int"; "bool"; "string"; "nil"])
                || (String.eqb e "l" && String.eqb a "label")
                || (String.eqb e "t" && String.eqb a "type")).
  { unfold validate_operand_type.
    repeat match goal with
           | |- context [if ?b then _ else _] => destruct b
           end; reflexivity. }
  rewrite E, !orb_true_iff, !andb_true_iff, !String.eqb_eq, mem_In. tauto.
Qed.

(** What the resolver returns when it returns. *)
Lemma determine_ok (t e k v : string) :
  determine_operand_type_and_value t e = Ok (k, v) ->
  (e = "l" /\ is_label t = true /\ k = "label" /\ v = t)
  \/ (e <> "l" /\ is_type t = true /\ k = "type" /\ v = t)
  \/ (e <> "l" /\ is_var t = true /\ k = "var" /\ v = t)
  \/ (e <> "l" /\ is_symb t = true
      /\ In k ["int"; "bool"; "string"; "nil"] /\ t = k ++ "@" ++ v).
Proof.
  unfold determine_operand_type_and_value.
  destruct (String.eqb_spec e "l") as [->|El].
  - destruct (is_label t); [|discriminate]. intros H. injection H as <- <-.
    left. now repeat split.
  - destruct (is_type t) eqn:T;
      [intros H; injection H as <- <-; right; left; now repeat split|].
    destruct (is_var t) eqn:V;
      [intros H; injection H as <- <-; right; right; left; now repeat split|].
    destruct (is_symb t) eqn:S; [|discriminate].
    destruct (contains_split "@" t (is_symb_contains t S)) as (x & y & -> & Hx).
    rewrite (split1_app "@" x y Hx). intros H. injection H as <- <-.
    right; right; right. repeat split; auto.
    now apply (is_symb_keyword x y Hx).
Qed.

(** What one turn of the operand loop gives when it succeeds. *)
Lemma parse_operand_inv (sig : list string) (i : nat) (t : string)
  (a : arg_element) :
  parse_operand sig i t = Ok a ->
  arg_index a = i + 1
  /\ exists e, nth_error sig i = Some e /\ slot_admits e t /\ arg_of_slot e t a.
Proof.
  unfold parse_operand. destruct (nth_error sig i) as [e|]; [|discriminate].
  destruct (determine_operand_type_and_value t e) as [[k v]|] eqn:D;
    cbn [bind]; [|discriminate].
  destruct (validate_operand_type e k t) eqn:V; cbn [negb]; [|discriminate].
  intros H. injection H as <-. split; [reflexivity|]. exists e.
  split; [reflexivity|].
  apply validate_spec in V. apply determine_ok in D.
  unfold slot_admits, arg_of_slot. cbn [arg_type arg_text].
  destruct D as [(El & L & Ek & Ev) | [(El & T & Ek & Ev)
               | [(El & Va & Ek & Ev) | (El & S & K & Et)]]];
    destruct V as [[Ee A] | [[Ee A] | [[Ee A] | [Ee A]]]];
    subst; try discriminate; try (now exfalso; apply El);
    try (exfalso; simpl in A; intuition discriminate);
    try (exfalso; simpl in K; intuition discriminate).
  - split; [right; right; left | right; left]; now repeat split.
  - split; [right; right; right | right; right; left]; now repeat split.
  - split; [left | left]; now repeat split.
  - split; [right; left; split; [reflexivity | now left]
           | right; right; right; left; now repeat split].
  - split; [right; left; split; [reflexivity | now right]
           | right; right; right; right; now repeat split].
Qed.


Lemma has_at_not_type (t : string) : contains "@" t = true -> is_type t = false.
Proof.
  intros C. destruct (is_type t) eqn:T; [|reflexivity].
  apply is_type_no_at in T. congruence.
Qed.

Lemma is_var_contains (t : string) : is_var t = true -> contains "@" t = true.
Proof. unfold is_var. now destruct (contains "@" t). Qed.

(** Every operand its slot admits passes the turn of the loop. *)
Lemma parse_operand_complete (sig : list string) (i : nat) (e t : string) :
  nth_error sig i = Some e -> slot_admits e t ->
  exists a, parse_operand sig i t = Ok a.
Proof.
  intros N A. unfold parse_operand. rewrite N.
  unfold determine_operand_type_and_value.
  destruct A as [[-> V] | [[-> [V | S]] | [[-> L] | [-> T]]]];
    cbn [String.eqb Ascii.eqb Bool.eqb].
  - rewrite (has_at_not_type t (is_var_contains t V)), V. cbn. eauto.
  - rewrite (has_at_not_type t (is_var_contains t V)), V. cbn. eauto.
  - rewrite (has_at_not_type t (is_symb_contains t S)).
    destruct (is_var t) eqn:V; [cbn; eauto|]. rewrite S.
    destruct (contains_split "@" t (is_symb_contains t S)) as (x & y & -> & Hx).
    rewrite (split1_app "@" x y Hx). cbn [bind].
    destruct (is_symb_keyword x y Hx S) as [<- | [<- | [<- | [<- | []]]]];
      cbn; eauto.
  - rewrite L. cbn. eauto.
  - rewrite T. cbn. eauto.
Qed.

Lemma nth_error_middle (pre es : list string) :
  nth_error (pre ++ es) (List.length pre) = nth_error es 0.
Proof. now rewrite nth_error_app2, Nat.sub_diag by lia. Qed.

Lemma parse_operands_inv (toks : list string) :
  forall pre es l,
    parse_operands (pre ++ es) (List.length pre) toks = Ok l ->
    exists es1 es2,
      es = (es1 ++ es2)%list /\ List.length es1 = List.length toks
      /\ Forall2 arg_matches (combine es1 toks) l
      /\ map arg_index l = seq (List.length pre + 1) (List.length toks).
Proof.
  induction toks as [|t toks IH]; intros pre es l; cbn [parse_operands].
  - intros H. injection H as <-. exists [], es. repeat split. constructor.
  - destruct (parse_operand (pre ++ es) (List.length pre) t) as [a|] eqn:P;
      cbn [bind]; [|discriminate].
    apply parse_operand_inv in P as (I & e & N & A & B).
    rewrite nth_error_middle in N. destruct es as [|e' es]; [discriminate|].
    injection N as ->.
    destruct (parse_operands (pre ++ e :: es) (S (List.length pre)) toks)
      as [l'|] eqn:Q; cbn [bind]; [|discriminate].
    intros H. injection H as <-.
    replace (pre ++ e :: es)%list with ((pre ++ [e]) ++ es)%list in Q
      by now rewrite <- app_assoc.
    replace (S (List.length pre)) with (List.length (pre ++ [e])%list) in Q
      by (rewrite length_app; simpl; lia).
    apply IH in Q as (es1 & es2 & -> & L & F & M).
    exists (e :: es1), es2. cbn [app List.length combine map seq].
    rewrite L. repeat split.
    + constructor; [now split | exact F].
    + rewrite I, M, length_app. cbn [List.length].
      now replace (List.length pre + 1 + 1) with (S (List.length pre + 1)) by lia.
Qed.

Lemma parse_operands_complete (toks : list string) :
  forall pre es1 es2,
    Forall2 slot_admits es1 toks ->
    exists l,
      parse_operands (pre ++ es1 ++ es2) (List.length pre) toks = Ok l.
Proof.
  induction toks as [|t toks IH]; intros pre es1 es2 F; cbn [parse_operands].
  - now exists [].
  - inversion F as [|e t' es1' toks' A F' E1 E2]. subst.
    destruct (parse_operand_complete (pre ++ (e :: es1') ++ es2)
                (List.length pre) e t) as (a & ->); [|exact A|].
    { now rewrite nth_error_middle. }
    cbn [bind]. destruct (IH (pre ++ [e])%list es1' es2 F') as (l & Q).
    rewrite <- app_assoc, length_app in Q. cbn [List.length app] in Q.
    rewrite Nat.add_1_r in Q. cbn [app]. rewrite Q. cbn [bind]. eauto.
Qed.

Lemma app_same_length (es1 es2 : list string) :
  List.length es1 = List.length (es1 ++ es2)%list -> (es1 ++ es2)%list = es1.
Proof.
  rewrite length_app. intros H. destruct es2; [apply app_nil_r | simpl in H; lia].
Qed.

(** * Instructions *)

Lemma lookup_length (name : string) (sig : list string) :
  lookup name instructions = Some sig -> List.length sig <= 3.
Proof.
  unfold instructions. cbn [lookup].
  repeat (destruct (String.eqb name _);
          [intros H; injection H as <-; simpl; lia|]).
  discriminate.
Qed.

(** Everything a successful [parse_instruction] fixes. *)
Lemma parse_instruction_ok (line : string) (o : nat) (x : instruction_element) :
  parse_instruction line o = Ok x ->
  exists op toks sig args,
    tokens line = op :: toks
    /\ lookup (lower op) instructions = Some sig
    /\ List.length toks = List.length sig
    /\ x = {| el_order := o; el_opcode := upper (lower op); el_args := args |}
    /\ Forall2 arg_matches (combine sig toks) args
    /\ map arg_index args = seq 1 (List.length sig).
Proof.
  destruct (parse_instruction_inv line o) as [-> | (op & toks & T)];
    [discriminate|].
  rewrite (parse_instruction_tokens line o op toks T).
  destruct (lookup (lower op) instructions) as [sig|] eqn:K; [|discriminate].
  destruct (Nat.eqb_spec (List.length toks) (List.length sig)) as [E|E];
    cbn [negb]; [|discriminate].
  destruct (parse_operands sig 0 toks) as [args|] eqn:P; cbn [bind];
    [|discriminate].
  intros H. injection H as <-.
  apply (parse_operands_inv toks [] sig) in P as (es1 & es2 & -> & L & F & M).
  rewrite E in L. rewrite (app_same_length es1 es2 L) in *.
  cbn [List.length Nat.add] in M. rewrite E in M.
  exists op, toks, es1, args. now repeat split.
Qed.

Lemma arg_of_slot_kind (e t : string) (a : arg_element) :
  arg_of_slot e t a ->
  In (arg_type a) ["var"; "int"; "bool"; "string"; "nil"; "label"; "type"].
Proof.
  intros [(_ & -> & _) | [(_ & -> & _) | [(_ & -> & _)
         | [(_ & -> & _) | (_ & K & _)]]]]; simpl; auto 8.
  simpl in K. intuition.
Qed.

Lemma arg_matches_kinds (ets : list (string * string)) (args : list arg_element) :
  Forall2 arg_matches ets args ->
  Forall (fun a => In (arg_type a)
                      ["var"; "int"; "bool"; "string"; "nil"; "label"; "type"])
         args.
Proof.
  induction 1 as [|et a ets args [_ B] _ IH]; constructor; [|exact IH].
  now apply (arg_of_slot_kind (fst et) (snd et)).
Qed.

Lemma parse_instruction_well_formed (line : string) (o : nat)
  (x : instruction_element) :
  parse_instruction line o = Ok x -> well_formed x.
Proof.
  intros H. apply parse_instruction_ok in H
    as (op & toks & sig & args & T & K & L & -> & F & M).
  exists (lower op), sig. cbn [el_opcode el_args]. repeat split; auto.
  - now apply lookup_length with (lower op).
  - now apply arg_matches_kinds with (combine sig toks).
Qed.

(** X8.  The arguments of a parsed instruction follow its tokens one by
    one: the k-th operand token is admitted by the k-th category of the
    signature, and the k-th argument has type var, label or type with the
    whole token as text (in a v, l or t slot, or a variable in an s slot),
    or is a literal whose type and text are the two sides of the token's
    first "@" (in an s slot). *)
Theorem parse_instruction_args (line : string) (o : nat)
  (x : instruction_element) :
  parse_instruction line o = Ok x ->
  exists op toks sig,
    tokens line = op :: toks
    /\ lookup (lower op) instructions = Some sig
    /\ List.length toks = List.length sig
    /\ Forall2 arg_matches (combine sig toks) (el_args x).
Proof.
  intros H. apply parse_instruction_ok in H
    as (op & toks & sig & args & T & K & L & -> & F & M).
  now exists op, toks, sig.
Qed.

Lemma parse_instruction_args_witness :
  parse_instruction "Move GF@x string@a@b" 7
  = Ok {| el_order := 7; el_opcode := "MOVE";
          el_args := [ {| arg_index := 1; arg_type := "var"; arg_text := "GF@x" |};
                       {| arg_index := 2; arg_type := "string";
                          arg_text := "a@b" |} ] |}
  /\ exists op toks sig,
       tokens "Move GF@x string@a@b" = op :: toks
       /\ lookup (lower op) instructions = Some sig
       /\ List.length toks = List.length sig
       /\ Forall2 arg_matches (combine sig toks)
            [ {| arg_index := 1; arg_type := "var"; arg_text := "GF@x" |};
              {| arg_index := 2; arg_type := "string"; arg_text := "a@b" |} ].
Proof.
  split; [reflexivity|].
  apply (parse_instruction_args "Move GF@x string@a@b" 7
           {| el_order := 7; el_opcode := "MOVE";
              el_args :=
                [ {| arg_index := 1; arg_type := "var"; arg_text := "GF@x" |};
                  {| arg_index := 2; arg_type := "string";
                     arg_text := "a@b" |} ] |}).
  reflexivity.
Defined.

(** X9.  A line is accepted by [parse_instruction] exactly when its first
    token, in lower case, is a key of [instructions] and its further tokens
    are, one by one, admitted by the categories of the signature: a
    variable for v, a variable or a symbol for s, a label for l, a type
    keyword for t. *)
Theorem parse_instruction_accepts (line : string) (o : nat) :
  (exists x, parse_instruction line o = Ok x) <->
  exists op toks sig,
    tokens line = op :: toks
    /\ lookup (lower op) instructions = Some sig
    /\ Forall2 slot_admits sig toks.
Proof.
  split.
  - intros (x & H). apply parse_instruction_ok in H
      as (op & toks & sig & args & T & K & L & _ & F & _).
    exists op, toks, sig. repeat split; auto.
    clear T K. revert toks args L F.
    induction sig as [|e sig IH]; intros [|t toks] args L F;
      try discriminate; constructor.
    + inversion F as [|? ? ? ? [A _]]. exact A.
    + inversion F; subst. eapply IH; eauto.
  - intros (op & toks & sig & T & K & F).
    rewrite (parse_instruction_tokens line o op toks T), K.
    rewrite (Forall2_length F), Nat.eqb_refl. cbn [negb].
    destruct (parse_operands_complete toks [] sig [] F) as (l & P).
    cbn [app List.length] in P. rewrite app_nil_r in P. rewrite P. cbn [bind].
    eauto.
Qed.

Example jumpifeq_accepts : exists x,
  parse_instruction "JUMPIFEQ int GF@a bool@true" 1 = Ok x.
Proof. eexists. reflexivity. Qed.

(** X10.  A parsed instruction carries the order it was given, has as
    opcode the upper-case form of the line's first token taken in lower
    case, which is a key of [instructions], has one argument per operand
    token, numbered 1, 2, ..., at most three, and every argument type is
    one of var, int, bool, string, nil, label, type. *)
Theorem parse_instruction_shape (line : string) (o : nat)
  (x : instruction_element) :
  parse_instruction line o = Ok x ->
  el_order x = o /\ well_formed x
  /\ exists op toks,
       tokens line = op :: toks
       /\ el_opcode x = upper (lower op)
       /\ map arg_index (el_args x) = seq 1 (List.length toks).
Proof.
  intros H. pose proof (parse_instruction_well_formed line o x H) as W.
  apply parse_instruction_ok in H
    as (op & toks & sig & args & T & K & L & -> & F & M).
  cbn [el_order el_opcode el_args]. repeat split; auto.
  exists op, toks. rewrite L. now repeat split.
Qed.

Lemma parse_instruction_shape_witness :
  parse_instruction "  add  GF@r int@1 int@-0x1f " 3
  = Ok {| el_order := 3; el_opcode := "ADD";
          el_args := [ {| arg_index := 1; arg_type := "var"; arg_text := "GF@r" |};
                       {| arg_index := 2; arg_type := "int"; arg_text := "1" |};
                       {| arg_index := 3; arg_type := "int";
                          arg_text := "-0x1f" |} ] |}
  /\ well_formed
       {| el_order := 3; el_opcode := "ADD";
          el_args := [ {| arg_index := 1; arg_type := "var"; arg_text := "GF@r" |};
                       {| arg_index := 2; arg_type := "int"; arg_text := "1" |};
                       {| arg_index := 3; arg_type := "int";
                          arg_text := "-0x1f" |} ] |}.
Proof.
  split; [reflexivity|].
  apply (parse_instruction_shape "  add  GF@r int@1 int@-0x1f " 3). reflexivity.
Defined.

(** X11.  The result of [parse_instruction] depends on the line only
    through its tokens and on the first token only through its lower-case
    form: letter case of the opcode and the amount and kind of whitespace
    between tokens make no difference. *)
Theorem parse_instruction_insensitive (line1 line2 : string) (o : nat)
  (op1 op2 : string) (toks : list string) :
  tokens line1 = op1 :: toks ->
  tokens line2 = op2 :: toks ->
  lower op1 = lower op2 ->
  parse_instruction line1 o = parse_instruction line2 o.
Proof.
  intros T1 T2 E.
  rewrite (parse_instruction_tokens line1 o op1 toks T1),
    (parse_instruction_tokens line2 o op2 toks T2).
  now rewrite E.
Qed.

Lemma parse_instruction_insensitive_witness :
  tokens "MOVE GF@x int@42" = "MOVE" :: ["GF@x"; "int@42"]
  /\ tokens "  MoVe   GF@x  int@42 " = "MoVe" :: ["GF@x"; "int@42"]
  /\ lower "MOVE" = lower "MoVe"
  /\ parse_instruction "MOVE GF@x int@42" 1
     = parse_instruction "  MoVe   GF@x  int@42 " 1.
Proof.
  do 3 (split; [reflexivity|]).
  apply (parse_instruction_insensitive "MOVE GF@x int@42"
           "  MoVe   GF@x  int@42 " 1 "MOVE" "MoVe" ["GF@x"; "int@42"]);
    reflexivity.
Defined.

(** * The program as a whole *)

Lemma contents_cons (l : string) (lines : list string) :
  contents (l :: lines) =
  if blank l then contents lines else content l :: contents lines.
Proof. unfold contents, has_content. cbn [filter]. now destruct (blank l). Qed.

(** The loop of [main] after the header: the lines with content are parsed
    in turn, numbered on from the current order. *)
Lemma main_loop_parse_lines (lines : list string) :
  forall st,
    header_found st = true ->
    main_loop st lines =
    xs <- parse_lines (order st + 1) (contents lines) ;;
    Ok {| header_found := true;
          instructions_xml := (instructions_xml st ++ xs)%list;
          order := order st + List.length xs |}.
Proof.
  induction lines as [|l lines IH]; intros st F.
  - cbn. destruct st as [h i o]. cbn in *. subst h.
    now rewrite app_nil_r, Nat.add_0_r.
  - cbn [main_loop]. rewrite main_step_spec, contents_cons.
    destruct (blank l); cbn [bind]; [now apply IH|].
    rewrite F. cbn [negb parse_lines].
    destruct (parse_instruction (content l) (order st + 1)) as [x|e];
      cbn [bind]; [|reflexivity].
    rewrite (IH (appended st x) F). cbn [appended order instructions_xml].
    replace (order st + 1 + 1) with (S (order st + 1)) by lia.
    destruct (parse_lines (S (order st + 1)) (contents lines)) as [xs|e];
      cbn [bind]; [|reflexivity].
    rewrite <- app_assoc. cbn [app List.length]. do 2 f_equal. lia.
Qed.

Lemma main_as_parse_lines (lines : list string) :
  main lines =
  if header_accepted lines then parse_lines 1 (contents (body_lines lines))
  else Err MissingHeader.
Proof.
  rewrite main_spec. destruct (header_accepted lines); [|reflexivity].
  rewrite (main_loop_parse_lines _ (found main_init) eq_refl).
  cbn [found main_init order instructions_xml Nat.add].
  now destruct (parse_lines 1 (contents (body_lines lines))).
Qed.






Lemma parse_lines_first_failure (pre : list string) :
  forall o l rest e xs,
    parse_lines o pre = Ok xs ->
    parse_instruction l (o + List.length pre) = Err e ->
    parse_lines o (pre ++ l :: rest) = Err e.
Proof.
  induction pre as [|p pre IH]; intros o l rest e xs; cbn [parse_lines app].
  - intros _ H. rewrite Nat.add_0_r in H. now rewrite H.
  - destruct (parse_instruction p o) as [x|]; cbn [bind]; [|discriminate].
    destruct (parse_lines (S o) pre) as [xs'|] eqn:Q; cbn [bind];
      [|discriminate].
    intros _ H. cbn [List.length] in H. rewrite Nat.add_succ_r in H.
    now rewrite (IH (S o) l rest e xs' Q H).
Qed.

(** X14.  [main] stops at the first instruction line that does not parse:
    when the header is accepted, the instruction contents before some line
    all parse, and that line, parsed with the next order, fails, [main]
    fails with that line's failure whatever follows. *)
Theorem main_first_failure (lines pre : list string) (l : string)
  (rest : list string) (xs : list instruction_element) (e : error) :
  header_accepted lines = true ->
  contents (body_lines lines) = (pre ++ l :: rest)%list ->
  parse_lines 1 pre = Ok xs ->
  parse_instruction l (1 + List.length pre) = Err e ->
  main lines = Err e.
Proof.
  intros A C P H. rewrite main_as_parse_lines, A, C.
  now apply parse_lines_first_failure with xs.
Qed.

Lemma main_first_failure_witness :
  header_accepted [".IPPcode24"; "BREAK"; "# c"; "WRITE int"; "FOO"] = true
  /\ contents (body_lines [".IPPcode24"; "BREAK"; "# c"; "WRITE int"; "FOO"])
     = (["BREAK"] ++ "WRITE int" :: ["FOO"])%list
  /\ parse_lines 1 ["BREAK"]
     = Ok [ {| el_order := 1; el_opcode := "BREAK"; el_args := [] |} ]
  /\ parse_instruction "WRITE int" (1 + List.length ["BREAK"])
     = Err OperandTypeMismatch
  /\ main [".IPPcode24"; "BREAK"; "# c"; "WRITE int"; "FOO"]
     = Err OperandTypeMismatch.
Proof.
  do 4 (split; [reflexivity|]).
  apply (main_first_failure
           [".IPPcode24"; "BREAK"; "# c"; "WRITE int"; "FOO"]
           ["BREAK"] "WRITE int" ["FOO"]
           [ {| el_order := 1; el_opcode := "BREAK"; el_args := [] |} ]);
    reflexivity.
Defined.

Lemma contains_before_hash (s : string) : contains "#" (before_hash s) = false.
Proof.
  induction s as [|c s IH]; [reflexivity|].
  rewrite before_hash_cons. destruct (Ascii.eqb c "#") eqn:E; [reflexivity|].
  cbn [contains]. now rewrite E, IH.
Qed.

Lemma before_hash_id (s : string) : contains "#" s = false -> before_hash s = s.
Proof.
  induction s as [|c s IH]; [reflexivity|].
  cbn [contains]. intros H. apply orb_false_iff in H as [E H].
  now rewrite before_hash_cons, E, (IH H).
Qed.

Lemma contains_lstrip (a : ascii) (s : string) :
  contains a s = false -> contains a (lstrip s) = false.
Proof.
  induction s as [|c s IH]; [reflexivity|].
  cbn [lstrip]. destruct (isspace c); [|auto].
  cbn [contains]. intros H. apply orb_false_iff in H as [_ H]. auto.
Qed.

Lemma contains_rstrip (a : ascii) (s : string) :
  contains a s = false -> contains a (rstrip s) = false.
Proof.
  induction s as [|c s IH]; [reflexivity|].
  cbn [contains rstrip]. intros H. apply orb_false_iff in H as [E H].
  destruct (is_empty (rstrip s) && isspace c); [reflexivity|].
  cbn [contains]. now rewrite E, (IH H).
Qed.

Lemma strip_idem (s : string) : strip (strip s) = strip s.
Proof.
  induction s as [|c s IH]; [reflexivity|].
  destruct (isspace c) eqn:S.
  - now rewrite !(strip_cons_space c s S).
  - now rewrite (strip_cons_word c s S), (strip_cons_word c _ S), rstrip_idem.
Qed.

(** The content of a line has no comment and no surrounding whitespace
    left: taking the content again changes nothing. *)
Lemma content_idem (l : string) : content (content l) = content l.
Proof.
  unfold content at 1. rewrite before_hash_id; [apply strip_idem|].
  unfold content, strip.
  apply contains_rstrip, contains_lstrip, contains_before_hash.
Qed.

Lemma blank_content (l : string) : blank (content l) = blank l.
Proof. unfold blank. now rewrite content_idem. Qed.

Lemma contents_idem (lines : list string) : contents (contents lines) = contents lines.
Proof.
  induction lines as [|l lines IH]; [reflexivity|].
  rewrite contents_cons. destruct (blank l) eqn:B; [exact IH|].
  now rewrite contents_cons, blank_content, B, content_idem, IH.
Qed.

Lemma first_content_contents (lines : list string) :
  first_content (contents lines) = first_content lines
  /\ body_lines (contents lines) = contents (body_lines lines).
Proof.
  induction lines as [|l lines IH]; [now split|].
  rewrite contents_cons. cbn [first_content body_lines].
  destruct (blank l) eqn:B; [exact IH|].
  cbn [first_content body_lines]. now rewrite blank_content, B, content_idem.
Qed.

(** X15.  [main] depends on its input only through the contents of the
    lines that have one: dropping the blank and comment-only lines, the
    comments and the whitespace around every line leaves the result, record
    for record or failure for failure, unchanged. *)
Theorem main_ignores_layout (lines : list string) :
  main (contents lines) = main lines.
Proof.
  rewrite !main_as_parse_lines. unfold header_accepted.
  destruct (first_content_contents lines) as [-> ->].
  now rewrite contents_idem.
Qed.





Lemma parse_lines_well_formed (ls : list string) :
  forall o recs, parse_lines o ls = Ok recs -> Forall well_formed recs.
Proof.
  induction ls as [|l ls IH]; intros o recs; cbn [parse_lines].
  - intros H. injection H as <-. constructor.
  - destruct (parse_instruction l o) as [x|] eqn:P; cbn [bind]; [|discriminate].
    destruct (parse_lines (S o) ls) as [xs|] eqn:Q; cbn [bind]; [|discriminate].
    intros H. injection H as <-. constructor.
    + now apply (parse_instruction_well_formed l o).
    + now apply (IH (S o)).
Qed.

(** X18.  Every record [main] returns is well formed: its opcode is a key
    of [instructions] in upper case, its arguments are numbered 1, 2, ...
    and are as many as the signature of that key has categories, at most
    three, and every argument type is one of var, int, bool, string, nil,
    label, type. *)
Theorem main_well_formed (lines : list string)
  (recs : list instruction_element) :
  main lines = Ok recs -> Forall well_formed recs.
Proof.
  rewrite main_as_parse_lines. destruct (header_accepted lines);
    [|discriminate].
  apply parse_lines_well_formed.
Qed.

Lemma main_well_formed_witness :
  main [".IPPcode24"; "READ GF@x int"; "JUMP int"]
  = Ok [ {| el_order := 1; el_opcode := "READ";
            el_args := [ {| arg_index := 1; arg_type := "var";
                            arg_text := "GF@x" |};
                         {| arg_index := 2; arg_type := "type";
                            arg_text := "int" |} ] |};
         {| el_order := 2; el_opcode := "JUMP";
            el_args := [ {| arg_index := 1; arg_type := "label";
                            arg_text := "int" |} ] |} ]
  /\ Forall well_formed
       [ {| el_order := 1; el_opcode := "READ";
            el_args := [ {| arg_index := 1; arg_type := "var";
                            arg_text := "GF@x" |};
                         {| arg_index := 2; arg_type := "type";
                            arg_text := "int" |} ] |};
         {| el_order := 2; el_opcode := "JUMP";
            el_args := [ {| arg_index := 1; arg_type := "label";
                            arg_text := "int" |} ] |} ].
Proof.
  split; [reflexivity|].
  apply (main_well_formed [".IPPcode24"; "READ GF@x int"; "JUMP int"]).
  reflexivity.
Defined.
